(** * ITR data warehouse: scope reconciliation and carbon-budget exceedance

    A shallow embedding of [ITR/data/data_warehouse.py] (class
    [DataWarehouse]) and of the Excel providers of [ITR/data/excel.py],
    and the properties of the scope resolution, the production-centric
    Scope-3 fold, the cumulative emissions, the exceedance year and the
    estimate of missing Scope-3 data.

    Modelling conventions.
    - A magnitude is a rational, or NaN ([None]); Python floats are
      idealised to exact rationals.
    - The tables of [_get_cumulative_emissions] hold pint quantities: a
      row carries its unit, and the conversion to Mt CO2 fails with
      [DimensionalityError] on a unit that is no mass of CO2.  The
      quantities of the other operations are taken in one unit.
    - What the source leaves to its environment is a parameter: the [add]
      methods of the point classes, the Series additions that raise, the
      unit registry, the quotient by zero, and the builtin [breakpoint()].
    - A pandas [DataFrame] is a list of year columns and a list of keyed
      rows; row keys and column labels are taken to be unique, as pandas
      indexes of these tables are.
    - Python exceptions are values of [Exn]; a function that can raise
      returns [Exn + A]. *)

From Stdlib Require Import ZArith QArith Lia List.
From stdpp Require Import base option list strings gmap.

Local Open Scope Z_scope.

(** ** Scopes, magnitudes, exceptions *)

Module EScope.
Inductive t := S1 | S2 | S1S2 | S3 | S1S2S3.
#[global] Instance eq_dec : EqDecision t.
Proof. solve_decision. Defined.
End EScope.

(** A magnitude: [Some q] is the finite value [q], [None] is NaN. *)
Definition Mag := option Q.

Definition mag_isnan (m : Mag) : bool :=
  match m with None => true | Some _ => false end.

Definition mag_add (a b : Mag) : Mag :=
  match a, b with Some x, Some y => Some (Qred (x + y)) | _, _ => None end.

Definition mag_mul (a b : Mag) : Mag :=
  match a, b with Some x, Some y => Some (Qred (x * y)) | _, _ => None end.

(** [a <= b] on floats: false as soon as one side is NaN. *)
Definition mag_le (a b : Mag) : bool :=
  match a, b with Some x, Some y => Qle_bool x y | _, _ => false end.

Inductive Exn :=
| AttributeError | ValueError | IndexError | KeyError
| AssertionError | ZeroDivisionError | TypeError
| DimensionalityError | BdbQuit.

#[global] Instance Exn_eq_dec : EqDecision Exn.
Proof. solve_decision. Defined.

(** ** Data frames *)

Definition RowKey := (string * EScope.t)%type.

Record DataFrame := mkDF {
  columns : list Z;
  rows : list (RowKey * list Mag)
}.

Definition index (df : DataFrame) : list RowKey := map fst (rows df).

Definition key_in (k : RowKey) (ks : list RowKey) : bool :=
  bool_decide (k ∈ ks).

(** [df.loc[k]]: the first row labelled [k]. *)
Definition loc_row (df : DataFrame) (k : RowKey) : option (list Mag) :=
  snd <$> List.find (fun r => bool_decide (fst r = k)) (rows df).

(** The cell of a row at a year label: the columns and the row zipped. *)
Fixpoint cell (cols : list Z) (row : list Mag) (y : Z) : option Mag :=
  match cols, row with
  | c :: cols', v :: row' => if bool_decide (c = y) then Some v else cell cols' row' y
  | _, _ => None
  end.

(** ** [_get_exceedance_year] *)

Section Exceedance.
(** [self.company_data.projection_controls] *)
Variables BASE_YEAR TARGET_YEAR : Z.

(** [df_budget.index.difference(df_subject.index)], in budget order. *)
Definition missing_subjects (df_subject df_budget : DataFrame) : list RowKey :=
  List.filter (fun k => negb (key_in k (index df_subject))) (index df_budget).

(** [df_budget.index.intersection(df_subject.index)], in budget order. *)
Definition aligned_rows (df_subject df_budget : DataFrame) : list RowKey :=
  List.filter (fun k => key_in k (index df_subject)) (index df_budget).

(** [df.loc[aligned_rows, ::-1]]: the aligned rows, columns reversed. *)
Definition loc_rev (df : DataFrame) (ks : list RowKey) : DataFrame :=
  mkDF (rev (columns df))
       (omap (fun k => (fun r => (k, rev r)) <$> loc_row df k) ks).

(** Python truthiness of [budget_year]: [None] and [0] are false. *)
Definition budget_year_given (budget_year : option Z) : option Z :=
  match budget_year with
  | Some y => if bool_decide (y = 0) then None else Some y
  | None => None
  end.

(** One row of [df_budget.update(df_exceedance_budget)]: every year
    strictly before [by_] takes the [by_] cell, unless that cell is NaN
    ([update] does not overwrite with missing values). *)
Fixpoint update_row (by_ : Z) (at_by : Mag) (cols : list Z) (row : list Mag)
  : list Mag :=
  match cols, row with
  | c :: cols', v :: row' =>
      (if bool_decide (c < by_) && negb (mag_isnan at_by) then at_by else v)
        :: update_row by_ at_by cols' row'
  | _, _ => row
  end.

Definition flatten_row (budget_year : option Z) (cols : list Z) (row : list Mag)
  : list Mag :=
  match budget_year_given budget_year with
  | Some by_ =>
      match cell cols row by_ with
      | Some at_by => update_row by_ at_by cols row
      | None => row
      end
  | None => row
  end.

(** [df_budget[(budget_year, units)]] is evaluated once per column with
    [year < budget_year]: a [KeyError] when such a column exists and
    [budget_year] is no column. *)
Definition flatten_budget (budget_year : option Z) (df : DataFrame)
  : Exn + DataFrame :=
  match budget_year_given budget_year with
  | Some by_ =>
      if existsb (fun c => bool_decide (c < by_)) (columns df)
         && negb (bool_decide (by_ ∈ columns df))
      then inl KeyError
      else inr (mkDF (columns df)
                     (map (fun r => (fst r, flatten_row budget_year (columns df) (snd r)))
                          (rows df)))
  | None => inr df
  end.

(** [df_subject.where(df_subject <= df_budget)] followed by
    [first_valid_index] on one row: the first column, in the order given,
    where the comparison holds. *)
Fixpoint first_valid_index (cols : list Z) (srow brow : list Mag) : option Z :=
  match cols, srow, brow with
  | c :: cols', s :: srow', b :: brow' =>
      if mag_le s b then Some c else first_valid_index cols' srow' brow'
  | _, _, _ => None
  end.

(** The final [map]: NA becomes [BASE_YEAR], a year at or beyond
    [TARGET_YEAR] becomes NA ([None]). *)
Definition exceedance_map (x : option Z) : option Z :=
  match x with
  | None => Some BASE_YEAR
  | Some y => if bool_decide (TARGET_YEAR <= y) then None else Some y
  end.

Definition _get_exceedance_year (df_subject df_budget : DataFrame)
           (budget_year : option Z) : Exn + list (RowKey * option Z) :=
  let missing := missing_subjects df_subject df_budget in
  let aligned := aligned_rows df_subject df_budget in
  let subj := loc_rev df_subject aligned in
  let budg := loc_rev df_budget aligned in
  if negb (bool_decide (length (columns subj) = length (columns budg)))
  then inl ValueError
  else if negb (bool_decide (columns subj = columns budg))
  then inl AssertionError
  else
    match flatten_budget budget_year budg with
    | inl e => inl e
    | inr budg' =>
        let df_aligned :=
          map (fun sb => (fst (fst sb),
                          first_valid_index (columns subj) (snd (fst sb)) (snd (snd sb))))
              (zip (rows subj) (rows budg')) in
        let df_aligned :=
          df_aligned ++ map (fun k => (k, None)) missing in
        inr (map (fun r => (fst r, exceedance_map (snd r))) df_aligned)
    end.
End Exceedance.

(** ** [_get_cumulative_emissions] *)

Fixpoint insert_year (y : Z) (l : list Z) : list Z :=
  match l with
  | [] => [y]
  | x :: l' => if bool_decide (y <= x) then y :: l else x :: insert_year y l'
  end.

Definition sort_years (l : list Z) : list Z := foldr insert_year [] l.

(** The outer join of two year indexes, as pandas aligns the operands of an
    arithmetic operation: equal indexes are kept as they are, different ones
    give the sorted union. *)
Definition union_years (a b : list Z) : list Z :=
  if bool_decide (a = b) then a else sort_years (remove_dups (a ++ b)).

(** A cell after reindexing on the joined index: NaN where the year is
    missing. *)
Definition cell_or_nan (cols : list Z) (row : list Mag) (y : Z) : Mag :=
  match cell cols row y with Some v => v | None => None end.

(** [projected_production.T[projected_ei.T.columns]]: the production rows
    labelled as the intensity rows, in the order of the intensity table; a
    label the production table lacks is a [KeyError]. *)
Fixpoint select_rows (df : DataFrame) (ks : list RowKey) : option (list (list Mag)) :=
  match ks with
  | [] => Some []
  | k :: ks' =>
      match loc_row df k, select_rows df ks' with
      | Some r, Some rs => Some (r :: rs)
      | _, _ => None
      end
  end.

(** [projected_ei.T.mul(...)], transposed back: one product row per
    intensity row, over the joined years. *)
Definition projected_emissions (projected_ei projected_production : DataFrame)
  : option DataFrame :=
  match select_rows projected_production (index projected_ei) with
  | None => None
  | Some prows =>
      let years := union_years (columns projected_ei) (columns projected_production) in
      Some (mkDF years
              (map (fun ep =>
                      (fst (fst ep),
                       map (fun y => mag_mul (cell_or_nan (columns projected_ei) (snd (fst ep)) y)
                                             (cell_or_nan (columns projected_production) (snd ep) y))
                           years))
                   (zip (rows projected_ei) prows)))
  end.

(** [df.isna().any().any()] *)
Definition isna_any (df : DataFrame) : bool :=
  existsb (fun r => existsb mag_isnan (snd r)) (rows df).

Fixpoint cumsum_from (acc : Mag) (row : list Mag) : list Mag :=
  match row with
  | [] => []
  | v :: row' => let a := mag_add acc v in a :: cumsum_from a row'
  end.

(** [cumsum(axis=1)] on one row. *)
Definition cumsum_row (row : list Mag) : list Mag :=
  match row with
  | [] => []
  | v :: row' => v :: cumsum_from v row'
  end.

Definition cumsum (df : DataFrame) : DataFrame :=
  mkDF (columns df) (map (fun r => (fst r, cumsum_row (snd r))) (rows df)).

Section Units.
(** The pint units of the registry ([ITR/data/osc_units.py]): a unit, the
    unit of a product, and the factor that converts a quantity of a unit
    to Mt CO2, [None] for a unit that is no mass of CO2. *)
Variable Unit : Type.
Variable unit_mul : Unit -> Unit -> Unit.
Variable to_Mt_CO2 : Unit -> option Q.

(** A table of pint quantities.  In the transposed frames the source
    multiplies, a row of the table is a column, a PintArray of one unit:
    the row carries its unit, the cells are magnitudes. *)
Record PintFrame := mkPF {
  pint_columns : list Z;
  pint_rows : list (RowKey * (Unit * list Mag))
}.

Definition magnitudes (df : PintFrame) : DataFrame :=
  mkDF (pint_columns df) (map (fun r => (fst r, snd (snd r))) (pint_rows df)).

(** The unit of the first row labelled [k]. *)
Definition unit_of (df : PintFrame) (k : RowKey) : option Unit :=
  (fun r => fst (snd r)) <$> List.find (fun r => bool_decide (fst r = k)) (pint_rows df).

(** The units of the product rows: one per intensity row that has a
    production row. *)
Definition product_units (projected_ei projected_production : PintFrame) : list Unit :=
  omap (fun r => unit_mul (fst (snd r)) <$> unit_of projected_production (fst r))
       (pint_rows projected_ei).

(** [astype('pint[Mt CO2]')] on a row of one unit.  The conversion is
    made column by column, that is year by year: a table without a year
    column converts nothing. *)
Definition convert_row (u : Unit) (row : list Mag) : Exn + list Mag :=
  match row with
  | [] => inr []
  | _ :: _ =>
      match to_Mt_CO2 u with
      | Some f => inr (map (mag_mul (Some f)) row)
      | None => inl DimensionalityError
      end
  end.

Fixpoint convert_rows (us : list Unit) (rs : list (RowKey * list Mag))
  : Exn + list (RowKey * list Mag) :=
  match us, rs with
  | u :: us', r :: rs' =>
      match convert_row u (snd r) with
      | inl e => inl e
      | inr row =>
          match convert_rows us' rs' with
          | inl e => inl e
          | inr rest => inr ((fst r, row) :: rest)
          end
      end
  | _, _ => inr []
  end.

(** The magnitudes of the returned table are in Mt CO2. *)
Definition _get_cumulative_emissions (projected_ei projected_production : PintFrame)
  : Exn + DataFrame :=
  match projected_emissions (magnitudes projected_ei) (magnitudes projected_production) with
  | None => inl KeyError
  | Some projected_emissions_t =>
      if isna_any projected_emissions_t then inl AssertionError
      else
        let cumulative_emissions := cumsum projected_emissions_t in
        match convert_rows (product_units projected_ei projected_production)
                           (rows cumulative_emissions) with
        | inl e => inl e
        | inr converted => inr (mkDF (columns cumulative_emissions) converted)
        end
  end.
End Units.

Arguments mkPF {Unit} _ _.
Arguments pint_columns {Unit} _.
Arguments pint_rows {Unit} _.
Arguments magnitudes {Unit} _.
Arguments unit_of {Unit} _ _.
Arguments product_units {Unit} _ _ _.
Arguments convert_row {Unit} _ _ _.
Arguments convert_rows {Unit} _ _ _.
Arguments _get_cumulative_emissions {Unit} _ _ _ _.

(** [df.iloc[:, -1]]: the last column, the value at the final year. *)
Definition last_column (df : DataFrame) : list (RowKey * Mag) :=
  map (fun r => (fst r, List.last (snd r) None)) (rows df).

(** ** Logging and exceptions of the constructor *)

(** What the constructor reports: the [logger] calls. *)
Inductive Event :=
| LogInfoShifting
| LogWarnS1S2Repair (company_id : string)
| LogWarnS2Missing (company_id : string)
| LogWarnS3Missing (company_id : string)
| LogErrorNotAligned (company_id : string)
| LogWarnMissingScopes (company_ids : list string)
| LogErrorUnits
| LogInfoAddedS3 (company_id sector region : string).

#[global] Instance Event_eq_dec : EqDecision Event.
Proof. solve_decision. Defined.

(** A computation that logs and may raise: the events so far, and the
    exception or the value. *)
Definition M (A : Type) : Type := (list Event * (Exn + A))%type.

Definition ret {A} (a : A) : M A := ([], inr a).
Definition raise {A} (e : Exn) : M A := ([], inl e).
Definition emit (ev : Event) : M unit := ([ev], inr tt).
Definition lift {A} (r : Exn + A) : M A := ([], r).

Definition bind {A B} (m : M A) (k : A -> M B) : M B :=
  match m with
  | (l, inl e) => (l, inl e)
  | (l, inr a) => let '(l', r) := k a in (l ++ l', r)
  end.

(** [try: m  except ...]: [h e] is the handler of the clause that matches
    [e], if any.  An exception raised by a handler is not handled by the
    other clauses of the same statement. *)
Definition try_except {A} (m : M A) (h : Exn -> option (M A)) : M A :=
  match m with
  | (l, inl e) =>
      match h e with
      | Some k => let '(l', r) := k in (l ++ l', r)
      | None => m
      end
  | _ => m
  end.

Notation "'let*' x ':=' m 'in' k" := (bind m (fun x => k))
  (at level 10, x name, m at level 100, k at level 200).
Notation "'do' m 'then' k" := (bind m (fun _ => k))
  (at level 10, m at level 100, k at level 200).


(** ** Realizations, projections and scope bundles *)

(** [IEmissionRealization], [IEIRealization] and [ICompanyEIProjection]:
    a year and a value. *)
Record Realization := mkR { year : Z; value : Mag }.

(** The historic bundles ([historic_data.emissions] and
    [historic_data.emissions_intensities]): a list per scope; [None] and
    the empty list are both false in the source's tests and are both
    the empty list here. *)
Module Historic.
Record t := mk {
  S1 : list Realization; S2 : list Realization; S1S2 : list Realization;
  S3 : list Realization; S1S2S3 : list Realization
}.

Definition getattr (d : t) (a : EScope.t) : list Realization :=
  match a with
  | EScope.S1 => S1 d | EScope.S2 => S2 d | EScope.S1S2 => S1S2 d
  | EScope.S3 => S3 d | EScope.S1S2S3 => S1S2S3 d
  end.

Definition setattr (d : t) (a : EScope.t) (v : list Realization) : t :=
  match a with
  | EScope.S1 => mk v (S2 d) (S1S2 d) (S3 d) (S1S2S3 d)
  | EScope.S2 => mk (S1 d) v (S1S2 d) (S3 d) (S1S2S3 d)
  | EScope.S1S2 => mk (S1 d) (S2 d) v (S3 d) (S1S2S3 d)
  | EScope.S3 => mk (S1 d) (S2 d) (S1S2 d) v (S1S2S3 d)
  | EScope.S1S2S3 => mk (S1 d) (S2 d) (S1S2 d) (S3 d) v
  end.
End Historic.

(** A pandas Series indexed by year. *)
Definition Series := list (Z * Mag).

(** The [projections] of a projection object: a pandas Series
    ([DF_ICompanyEIProjections]) or a list of points
    ([ICompanyEIProjections]). *)
Inductive Projections :=
| PSeries (s : Series)
| PList (l : list Realization).

Record ICompanyEIProjections := mkP {
  ei_metric : string;
  projections : Projections
}.

(** The projected bundles ([projected_intensities] and
    [projected_targets]): an optional projection object per scope. *)
Module Projected.
Record t := mk {
  S1 : option ICompanyEIProjections; S2 : option ICompanyEIProjections;
  S1S2 : option ICompanyEIProjections; S3 : option ICompanyEIProjections;
  S1S2S3 : option ICompanyEIProjections
}.

Definition getattr (d : t) (a : EScope.t) : option ICompanyEIProjections :=
  match a with
  | EScope.S1 => S1 d | EScope.S2 => S2 d | EScope.S1S2 => S1S2 d
  | EScope.S3 => S3 d | EScope.S1S2S3 => S1S2S3 d
  end.

Definition setattr (d : t) (a : EScope.t) (v : option ICompanyEIProjections) : t :=
  match a with
  | EScope.S1 => mk v (S2 d) (S1S2 d) (S3 d) (S1S2S3 d)
  | EScope.S2 => mk (S1 d) v (S1S2 d) (S3 d) (S1S2S3 d)
  | EScope.S1S2 => mk (S1 d) (S2 d) v (S3 d) (S1S2S3 d)
  | EScope.S3 => mk (S1 d) (S2 d) (S1S2 d) v (S1S2S3 d)
  | EScope.S1S2S3 => mk (S1 d) (S2 d) (S1S2 d) (S3 d) v
  end.
End Projected.

Record IHistoricData := mkH {
  emissions : option Historic.t;
  emissions_intensities : option Historic.t
}.

(** [ICompanyData], the fields the warehouse reads and writes.  A scalar
    quantity is absent ([None]) or a magnitude, which may be NaN. *)
Record ICompanyData := mkC {
  company_id : string;
  sector : string;
  region : string;
  ghg_s1s2 : option Mag;
  ghg_s3 : option Mag;
  historic_data : option IHistoricData;
  projected_intensities : option Projected.t;
  projected_targets : option Projected.t
}.

(** Truth value of an optional pint quantity: [None] is false, and a
    quantity is as true as its magnitude, so zero is false and NaN true. *)
Definition quantity_truthy (q : option Mag) : bool :=
  match q with
  | None => false
  | Some None => true
  | Some (Some x) => negb (Qeq_bool x 0)
  end.

(** ** The production-centric fold of Scope 3 *)

(** [list(map(f, a, b))]: pairs up to the shorter list; the first
    exception of [f] is raised. *)
Fixpoint map2_exn (f : Realization -> Realization -> Exn + Realization)
         (a b : list Realization) : Exn + list Realization :=
  match a, b with
  | x :: a', y :: b' =>
      match f x y with
      | inl e => inl e
      | inr z => match map2_exn f a' b' with
                 | inl e => inl e
                 | inr zs => inr (z :: zs)
                 end
      end
  | _, _ => inr []
  end.

(** [list(map(f, l))] *)
Fixpoint map_exn (f : Realization -> Exn + Realization) (l : list Realization)
  : Exn + list Realization :=
  match l with
  | [] => inr []
  | x :: l' =>
      match f x with
      | inl e => inl e
      | inr z => match map_exn f l' with
                 | inl e => inl e
                 | inr zs => inr (z :: zs)
                 end
      end
  end.

(** [s[y]] after reindexing: NaN where the Series has no such year. *)
Definition series_lookup (s : Series) (y : Z) : Mag :=
  match List.find (fun p => bool_decide (fst p = y)) s with
  | Some p => snd p
  | None => None
  end.

(** [a + b] on two year-indexed Series: outer join of the indexes, NaN
    where a year is missing on one side. *)
Definition series_add (a b : Series) : Series :=
  map (fun y => (y, mag_add (series_lookup a y) (series_lookup b y)))
      (union_years (map fst a) (map fst b)).

(** [while l[0].year < y: l = l[1:]]; running out of points is an
    [IndexError]. *)
Fixpoint drop_before (y : Z) (l : list Realization) : Exn + list Realization :=
  match l with
  | [] => inl IndexError
  | p :: l' => if bool_decide (year p < y) then drop_before y l' else inr l
  end.

Section Fold.
(** The [add] methods of the point classes, defined in [ITR/interfaces.py]:
    they may raise. *)
Variable emission_add : Realization -> Realization -> Exn + Realization.
Variable ei_add : Realization -> Realization -> Exn + Realization.
Variable projection_add : Realization -> Realization -> Exn + Realization.
(** When the addition of two Series raises [ValueError] (decided inside
    pandas and pint, for Series the libraries cannot align). *)
Variable series_raises : Series -> Series -> bool.
(** The builtin [breakpoint()].  What it does is decided outside the
    source, by [sys.breakpointhook] and the terminal: it returns when the
    hook is disabled or the session is continued, and it raises
    [bdb.BdbQuit] when the session is quit or has no input. *)
Variable breakpoint : M unit.
(** The quotient of a magnitude by zero, which the float type of the
    magnitudes decides: an exception or a value that is no number. *)
Variable zero_division : Mag -> Exn + Mag.

(** Division of magnitudes; NaN propagates. *)
Definition mag_div (a b : Mag) : Exn + Mag :=
  match b with
  | Some d => if Qeq_bool d 0 then zero_division a
              else inr (match a with Some n => Some (Qred (n / d)) | None => None end)
  | None => inr None
  end.

(** [type(x)(year=x.year, value=data.S3[0].value * x.value / pre_s3_data[-1].value)] *)
Definition rescale (s3_first last_pre x : Realization) : Exn + Realization :=
  match mag_div (mag_mul (value s3_first) (value x)) (value last_pre) with
  | inl e => inl e
  | inr v => inr (mkR (year x) v)
  end.

(** [p + q] where [q] is known to be a Series.  A list on the left is
    not an operand the source's callers build; it is a [TypeError] here. *)
Definition projections_plus (p q : Projections) : Exn + Projections :=
  match p, q with
  | PSeries a, PSeries b =>
      if series_raises a b then inl ValueError else inr (PSeries (series_add a b))
  | _, _ => inl TypeError
  end.

(** [list(map(ICompanyEIProjection.add, p, q))] on two lists of points;
    a Series operand is a [TypeError] here. *)
Definition projections_map_add (p q : Projections) : Exn + Projections :=
  match p, q with
  | PList a, PList b =>
      match map2_exn projection_add a b with
      | inl e => inl e
      | inr l => inr (PList l)
      end
  | _, _ => inl TypeError
  end.

Definition _adjust_historic_data (data : Historic.t) (primary_scope_attr : EScope.t)
           (data_adder : Realization -> Realization -> Exn + Realization)
  : M Historic.t :=
  match Historic.getattr data primary_scope_attr with
  | [] => ret (Historic.setattr data primary_scope_attr (Historic.S3 data))
  | primary =>
      match Historic.S3 data with
      | [] => raise IndexError
      | s3_first :: _ =>
          let pre_s3_data :=
            List.filter (fun p => bool_decide (year p <= year s3_first)) primary in
          match pre_s3_data with
          | [] => do breakpoint then ret data
          | _ =>
              let* s3_data :=
                (if bool_decide (1 < Z.of_nat (length pre_s3_data)) then
                   let* scaled :=
                     lift (map_exn (rescale s3_first (List.last pre_s3_data s3_first))
                                   (removelast pre_s3_data)) in
                   ret (scaled ++ Historic.S3 data)
                 else ret (Historic.S3 data)) in
              let* summed := lift (map2_exn data_adder primary s3_data) in
              ret (Historic.setattr data primary_scope_attr summed)
          end
      end
  end.

(** The two historic blocks of one bundle: fold S3 into S1 and S1S2 and
    clear it, then clear S1S2S3. *)
Definition shift_historic (data : option Historic.t)
           (data_adder : Realization -> Realization -> Exn + Realization)
  : M (option Historic.t) :=
  match data with
  | None => ret None
  | Some d =>
      let* d1 :=
        (match Historic.S3 d with
         | [] => ret d
         | _ =>
             let* a := _adjust_historic_data d EScope.S1 data_adder in
             let* b := _adjust_historic_data a EScope.S1S2 data_adder in
             ret (Historic.setattr b EScope.S3 [])
         end) in
      ret (Some (match Historic.S1S2S3 d1 with
                 | [] => d1
                 | _ => Historic.setattr d1 EScope.S1S2S3 []
                 end))
  end.

Definition set_projections (p : ICompanyEIProjections) (v : Projections)
  : ICompanyEIProjections := mkP (ei_metric p) v.

Definition _adjust_trajectories (trajectories : Projected.t)
           (primary_scope_attr : EScope.t) : M Projected.t :=
  match Projected.getattr trajectories primary_scope_attr with
  | None => ret (Projected.setattr trajectories primary_scope_attr
                                   (Projected.S3 trajectories))
  | Some primary =>
      match Projected.S3 trajectories with
      | None => raise AttributeError
      | Some s3 =>
          let* summed :=
            (match projections s3 with
             | PSeries _ => lift (projections_plus (projections primary) (projections s3))
             | PList _ =>
                 do breakpoint then
                 lift (projections_map_add (projections primary) (projections s3))
             end) in
          ret (Projected.setattr trajectories primary_scope_attr
                                 (Some (set_projections primary summed)))
      end
  end.

Definition shift_trajectories (t : option Projected.t) : M (option Projected.t) :=
  match t with
  | None => ret None
  | Some tr =>
      match Projected.S3 tr with
      | None => ret (Some tr)
      | Some _ =>
          let* a := _adjust_trajectories tr EScope.S1 in
          let* b := _adjust_trajectories a EScope.S1S2 in
          let c := Projected.setattr b EScope.S3 None in
          ret (Some (match Projected.S1S2S3 c with
                     | None => c
                     | Some _ => Projected.setattr c EScope.S1S2S3 None
                     end))
      end
  end.

(** The list branch of [_align_and_sum_projected_targets]: drop the
    leading points of the series that starts earlier, then sum.  (On a
    year-indexed Series [primary_projections[0]] is a label lookup, a
    [KeyError] below.) *)
Definition align_lists (primary s3 : list Realization) : Exn + list Realization :=
  match primary, s3 with
  | p0 :: _, s0 :: _ =>
      if bool_decide (year p0 < year s0) then
        match drop_before (year s0) primary with
        | inl e => inl e
        | inr primary' => map2_exn projection_add primary' s3
        end
      else if bool_decide (year s0 < year p0) then
        match drop_before (year p0) s3 with
        | inl e => inl e
        | inr s3' => map2_exn projection_add primary s3'
        end
      else map2_exn projection_add primary s3
  | _, _ => inl IndexError
  end.

Definition _align_and_sum_projected_targets (targets : Projected.t)
           (primary_scope_attr : EScope.t) : M Projected.t :=
  match Projected.getattr targets primary_scope_attr with
  | None => raise AttributeError
  | Some primary =>
      match Projected.S3 targets with
      | None => raise AttributeError
      | Some s3 =>
          let* summed :=
            (match projections s3 with
             | PSeries _ => lift (projections_plus (projections primary) (projections s3))
             | PList l3 =>
                 do breakpoint then
                 match projections primary with
                 | PList lp =>
                     lift (match align_lists lp l3 with
                           | inl e => inl e
                           | inr l => inr (PList l)
                           end)
                 | PSeries _ => raise KeyError
                 end
             end) in
          ret (Projected.setattr targets primary_scope_attr
                                 (Some (set_projections primary summed)))
      end
  end.

Definition set_targets_S1S2 (t : Projected.t) (s1 : ICompanyEIProjections)
           (v : Projections) : Projected.t :=
  Projected.setattr t EScope.S1S2 (Some (mkP (ei_metric s1) v)).

(** The [except AttributeError] clause: rebuild S1S2 from S1 (and S2),
    then fold S3 into it. *)
Definition repair_S1S2 (id : string) (t : Projected.t) : M Projected.t :=
  let* t1 :=
    (match Projected.S2 t with
     | Some s2 =>
         do emit (LogWarnS1S2Repair id) then
         match Projected.S1 t with
         | None => raise AttributeError
         | Some s1 =>
             let* pr := lift (projections_map_add (projections s1) (projections s2)) in
             ret (set_targets_S1S2 t s1 pr)
         end
     | None =>
         do emit (LogWarnS2Missing id) then
         match Projected.S1 t with
         | None => raise AttributeError
         | Some s1 => ret (set_targets_S1S2 t s1 (projections s1))
         end
     end) in
  match Projected.S3 t1 with
  | Some _ => _align_and_sum_projected_targets t1 EScope.S1S2
  | None => do emit (LogWarnS3Missing id) then ret t1
  end.

Definition shift_targets (id : string) (t : option Projected.t)
  : M (option Projected.t) :=
  match t with
  | None => ret None
  | Some tg =>
      let* tg1 :=
        (match Projected.S3 tg with
         | None => ret tg
         | Some _ =>
             let* a := (match Projected.S1 tg with
                        | Some _ => _align_and_sum_projected_targets tg EScope.S1
                        | None => ret tg
                        end) in
             let* b :=
               try_except (_align_and_sum_projected_targets a EScope.S1S2)
                 (fun e => match e with
                           | AttributeError => Some (repair_S1S2 id a)
                           | ValueError =>
                               Some (do emit (LogErrorNotAligned id) then ret a)
                           | _ => None
                           end) in
             ret (Projected.setattr b EScope.S3 None)
         end) in
      ret (Some (match Projected.S1S2S3 tg1 with
                 | None => tg1
                 | Some _ => Projected.setattr tg1 EScope.S1S2S3 None
                 end))
  end.

(** [c.ghg_s1s2 = c.ghg_s1s2 + c.ghg_s3] when the S3 magnitude is no NaN,
    then [c.ghg_s3 = None]; an absent [ghg_s1s2] cannot be added to. *)
Definition shift_ghg (c : ICompanyData) : M (option Mag * option Mag) :=
  if quantity_truthy (ghg_s3 c) then
    match ghg_s3 c with
    | Some m3 =>
        if negb (mag_isnan m3) then
          match ghg_s1s2 c with
          | Some m12 => ret (Some (mag_add m12 m3), None)
          | None => raise TypeError
          end
        else ret (ghg_s1s2 c, None)
    | None => ret (ghg_s1s2 c, ghg_s3 c)
    end
  else ret (ghg_s1s2 c, ghg_s3 c).

(** The body of the loop over the companies. *)
Definition shift_company (c : ICompanyData) : M ICompanyData :=
  let* g := shift_ghg c in
  let* h :=
    (match historic_data c with
     | None => ret None
     | Some hd =>
         let* e := shift_historic (emissions hd) emission_add in
         let* i := shift_historic (emissions_intensities hd) ei_add in
         ret (Some (mkH e i))
     end) in
  let* tr := shift_trajectories (projected_intensities c) in
  let* tg := shift_targets (company_id c) (projected_targets c) in
  ret (mkC (company_id c) (sector c) (region c) (fst g) (snd g) h tr tg).

Fixpoint shift_companies (cs : list ICompanyData) : M (list ICompanyData) :=
  match cs with
  | [] => ret []
  | c :: cs' =>
      let* c' := shift_company c in
      let* rest := shift_companies cs' in
      ret (c' :: rest)
  end.
End Fold.

(** ** Scope resolution and the constructor *)

(** One benchmark of [_EI_benchmarks]: the flag the constructor reads. *)
Record IEIBenchmark := mkB { production_centric : bool }.

(** [IEIBenchmarkScopes]: an optional benchmark per scope. *)
Module Benchmarks.
Record t := mk {
  S1 : option IEIBenchmark; S2 : option IEIBenchmark;
  S1S2 : option IEIBenchmark; S3 : option IEIBenchmark;
  S1S2S3 : option IEIBenchmark
}.
End Benchmarks.

(** The intensity-benchmark provider: its benchmarks, and the index of
    [_EI_df], the (sector, region, scope) rows the benchmark publishes. *)
Record IntensityBenchmarkDataProvider := mkProvider {
  _EI_benchmarks : Benchmarks.t;
  _EI_df : list (string * string * EScope.t)
}.

(** [_EI_df.loc[sector, region].index.tolist()]; no row is a [KeyError]
    ([None]). *)
Definition loc_scopes (ei_df : list (string * string * EScope.t))
           (sector region : string) : option (list EScope.t) :=
  match List.filter (fun r => bool_decide (fst (fst r) = sector)
                              && bool_decide (snd (fst r) = region)) ei_df with
  | [] => None
  | l => Some (map snd l)
  end.

(** The region the benchmark is read at: the company's, else "Global". *)
Definition benchmark_region (ei_df : list (string * string * EScope.t))
           (sector region : string) : option string :=
  match loc_scopes ei_df sector region with
  | Some _ => Some region
  | None => match loc_scopes ei_df sector "Global" with
            | Some _ => Some "Global"%string
            | None => None
            end
  end.

Definition scope_priority : list EScope.t :=
  [EScope.S1S2S3; EScope.S1S2; EScope.S1; EScope.S3].

(** [for scope in [...]: if scope in scopes: ...; break] *)
Definition first_priority_scope (scopes : list EScope.t) : option EScope.t :=
  List.find (fun s => bool_decide (s ∈ scopes)) scope_priority.

(** The scope the loop body assigns for a list of published scopes. *)
Definition pick_scope (scopes : list EScope.t) : option EScope.t :=
  match scopes with
  | [s] => Some s
  | _ => first_priority_scope scopes
  end.

(** The state of the scope loop: [self.company_scope] and
    [missing_company_scopes]. *)
Record ScopeState := mkS {
  company_scope : gmap string EScope.t;
  missing_company_scopes : list string
}.

Definition resolve_company (ei_df : list (string * string * EScope.t))
           (st : ScopeState) (c : ICompanyData) : ScopeState :=
  match benchmark_region ei_df (sector c) (region c) with
  | None => mkS (company_scope st) (missing_company_scopes st ++ [company_id c])
  | Some region' =>
      match loc_scopes ei_df (sector c) region' with
      | None => mkS (company_scope st) (missing_company_scopes st ++ [company_id c])
      | Some scopes =>
          match pick_scope scopes with
          | Some s => mkS (<[company_id c := s]> (company_scope st))
                          (missing_company_scopes st)
          | None =>
              if bool_decide (is_Some (company_scope st !! company_id c)) then st
              else mkS (company_scope st) (missing_company_scopes st ++ [company_id c])
          end
      end
  end.

Definition resolve_scopes (ei_df : list (string * string * EScope.t))
           (cs : list ICompanyData) : ScopeState :=
  fold_left (resolve_company ei_df) cs (mkS ∅ []).

Record DataWarehouse := mkW {
  companies : list ICompanyData;
  warehouse_scope : gmap string EScope.t
}.

Section Init.
Variable emission_add : Realization -> Realization -> Exn + Realization.
Variable ei_add : Realization -> Realization -> Exn + Realization.
Variable projection_add : Realization -> Realization -> Exn + Realization.
Variable series_raises : Series -> Series -> bool.
Variable breakpoint : M unit.
Variable zero_division : Mag -> Exn + Mag.
(** [estimate_missing_data], when given, is called on each company. *)
Variable estimate_missing_data : option (ICompanyData -> M ICompanyData).
(** [company_data._calculate_target_projections] *)
Variable _calculate_target_projections : list ICompanyData -> M (list ICompanyData).

Fixpoint estimate_all (f : ICompanyData -> M ICompanyData) (cs : list ICompanyData)
  : M (list ICompanyData) :=
  match cs with
  | [] => ret []
  | c :: cs' =>
      let* c' := f c in
      let* rest := estimate_all f cs' in
      ret (c' :: rest)
  end.

(** [assert S1S2 or (S1 == None)] *)
Definition benchmark_assertion (b : Benchmarks.t) : bool :=
  match Benchmarks.S1S2 b, Benchmarks.S1 b with
  | Some _, _ => true
  | None, None => true
  | None, Some _ => false
  end.

Definition is_production_centric (b : Benchmarks.t) : bool :=
  match Benchmarks.S1S2 b with
  | Some bm => production_centric bm
  | None => false
  end.

(** What the constructor does before its assertion: the optional
    estimate of missing data, then the target projections. *)
Definition prepare_companies (cs : list ICompanyData) : M (list ICompanyData) :=
  let* cs1 := (match estimate_missing_data with
               | Some f => estimate_all f cs
               | None => ret cs
               end) in
  _calculate_target_projections cs1.

(** [DataWarehouse.__init__] *)
Definition __init__ (benchmarks_projected_ei : IntensityBenchmarkDataProvider)
           (cs : list ICompanyData) : M DataWarehouse :=
  let* cs2 := prepare_companies cs in
  if negb (benchmark_assertion (_EI_benchmarks benchmarks_projected_ei))
  then raise AssertionError
  else
    let* cs3 :=
      (if is_production_centric (_EI_benchmarks benchmarks_projected_ei) then
         do emit LogInfoShifting then
         shift_companies emission_add ei_add projection_add series_raises
                         breakpoint zero_division cs2
       else ret cs2) in
    let st := resolve_scopes (_EI_df benchmarks_projected_ei) cs3 in
    do (match missing_company_scopes st with
        | [] => ret tt
        | ids => emit (LogWarnMissingScopes ids)
        end) then
    ret (mkW cs3 (company_scope st)).
End Init.

(** ** [get_preprocessed_company_data]: the ragged left edge of the targets *)






(** ** The Excel providers ([ITR/data/excel.py])

    The Excel sheets hold plain floats.  Here [None] stands for a float
    that is not finite: the NaN of a missing cell, or the result of a
    division by zero; the sheets are taken to hold no infinity. *)



(** [s[y]] on a year-indexed Series: a missing year is a [KeyError]
    ([None]). *)
Definition series_get (s : Series) (y : Z) : option Mag :=
  snd <$> List.find (fun p => bool_decide (fst p = y)) s.

Section ExcelProviders.
(** [temp_config.CONTROLS_CONFIG.base_year] and [target_end_year] *)
Variables base_year target_end_year : Z.










End ExcelProviders.






(** ** [estimate_missing_s3_data] *)

(** [a.mul(b)] on two year-indexed Series: outer join of the indexes, NaN
    where a year is missing on one side. *)
Definition series_mul (a b : Series) : Series :=
  map (fun y => (y, mag_mul (series_lookup a y) (series_lookup b y)))
      (union_years (map fst a) (map fst b)).

(** [s[s.index.intersection(other.index)]]: the entries of [s] at the
    years of [other]. *)
Definition series_restrict (s other : Series) : Series :=
  List.filter (fun p => bool_decide (fst p ∈ map fst other)) s.

(** [[cls(year=p.year, value=s[p.year]) for p in points]]: a year the
    Series lacks is a [KeyError]. *)
Fixpoint points_of_series (s : Series) (points : list Realization)
  : Exn + list Realization :=
  match points with
  | [] => inr []
  | p :: points' =>
      match series_get s (year p), points_of_series s points' with
      | Some v, inr rest => inr (mkR (year p) v :: rest)
      | None, _ => inl KeyError
      | _, inl e => inl e
      end
  end.

Definition from_year (y : Z) (l : list Realization) : list Realization :=
  List.filter (fun p => bool_decide (y <= year p)) l.

Section EstimateS3.
(** [self.company_data.projection_controls.BASE_YEAR] *)
Variable BASE_YEAR : Z.
Variable emission_add : Realization -> Realization -> Exn + Realization.
Variable ei_add : Realization -> Realization -> Exn + Realization.
Variable projection_add : Realization -> Realization -> Exn + Realization.
Variable series_raises : Series -> Series -> bool.
(** The (sector, region) rows of
    [get_company_intensity_and_production_at_base_year([company_id])]. *)
Variable base_year_info : string -> list (string * string).
(** The rows of [get_company_projected_production] for the company, with
    the region the benchmark is read at. *)
Variable company_projected_production : string -> string -> string -> list Series.
(** [_EI_df.loc[(sector, region, scope)]] *)
Variable ei_benchmark : string -> string -> EScope.t -> Series.
(** Whether the units of production times intensity fail to convert to
    a mass of CO2 ([pint.errors.DimensionalityError]). *)
Variable dimensionality_error : string -> string -> bool.

(** The historic S3 and S1S2S3 series synthesized from the S1S2 series
    and a Series of S3 values. *)
Definition estimate_historic (adder : Realization -> Realization -> Exn + Realization)
           (values : Series) (d : Historic.t) : Exn + Historic.t :=
  match points_of_series values (from_year BASE_YEAR (Historic.S1S2 d)) with
  | inl e => inl e
  | inr s3 =>
      let s3_aligned :=
        match Historic.S1S2 d with
        | [] => []
        | first :: _ => from_year (year first) s3
        end in
      match map2_exn adder (from_year BASE_YEAR (Historic.S1S2 d)) s3_aligned with
      | inl e => inl e
      | inr s1s2s3 =>
          inr (Historic.mk (Historic.S1 d) (Historic.S2 d) (Historic.S1S2 d) s3 s1s2s3)
      end
  end.

Definition list_projections (p : ICompanyEIProjections) : Exn + list Realization :=
  match projections p with
  | PList l => inr l
  | PSeries _ => inl TypeError
  end.

(** The S3 (and S1S2S3) trajectory synthesized from the benchmark. *)
Definition estimate_projected (bm_ei_s3 : Series) (pi : Projected.t) : M Projected.t :=
  match Projected.S1S2 pi, Projected.S1 pi with
  | Some (mkP metric (PSeries s12)), _ =>
      let s3 := series_restrict bm_ei_s3 s12 in
      let* sum := lift (projections_plus series_raises (PSeries s12) (PSeries s3)) in
      ret (Projected.mk (Projected.S1 pi) (Projected.S2 pi) (Projected.S1S2 pi)
                        (Some (mkP metric (PSeries s3))) (Some (mkP metric sum)))
  | _, Some (mkP metric (PSeries s1)) =>
      ret (Projected.setattr pi EScope.S3
             (Some (mkP metric (PSeries (series_restrict bm_ei_s3 s1)))))
  | _, _ =>
      try_except
        (match Projected.S1S2 pi with
         | None => raise AttributeError
         | Some p12 =>
             let* l12 := lift (list_projections p12) in
             let* s3 := lift (points_of_series bm_ei_s3 l12) in
             let* _ := (match l12 with [] => raise IndexError | _ => ret tt end) in
             let* sum := lift (map2_exn projection_add l12 s3) in
             ret (Projected.mk (Projected.S1 pi) (Projected.S2 pi) (Projected.S1S2 pi)
                               (Some (mkP (ei_metric p12) (PList s3)))
                               (Some (mkP (ei_metric p12) (PList sum))))
         end)
        (fun e => match e with
                  | AttributeError =>
                      Some (match Projected.S1 pi with
                            | None => raise AttributeError
                            | Some p1 =>
                                let* l1 := lift (list_projections p1) in
                                let* s3 := lift (points_of_series bm_ei_s3 l1) in
                                ret (Projected.setattr pi EScope.S3
                                       (Some (mkP (ei_metric p1) (PList s3))))
                            end)
                  | _ => None
                  end)
  end.

Definition estimate_missing_s3_data (bm : IntensityBenchmarkDataProvider)
           (company : ICompanyData) : M ICompanyData :=
  match Benchmarks.S3 (_EI_benchmarks bm) with
  | None => ret company
  | Some _ =>
  match historic_data company with
  | None => raise AttributeError
  | Some hd =>
  match emissions hd with
  | None => raise AttributeError
  | Some em =>
  match Historic.S3 em with
  | _ :: _ => ret company
  | [] =>
  match base_year_info (company_id company) with
  | [] => raise IndexError
  | (sec, reg) :: _ =>
  match benchmark_region (_EI_df bm) sec reg with
  | None => ret company
  | Some region' =>
  match loc_scopes (_EI_df bm) sec region' with
  | None => raise KeyError
  | Some scopes =>
  if negb (bool_decide (EScope.S3 ∈ scopes)) then ret company
  else
  match company_projected_production (company_id company) sec region' with
  | [] => raise IndexError
  | production :: _ =>
      let bm_ei_s3 := ei_benchmark sec region' EScope.S3 in
      let s3_emissions := series_mul production bm_ei_s3 in
      if dimensionality_error sec region'
      then do emit LogErrorUnits then ret company
      else
        match series_get s3_emissions BASE_YEAR with
        | None => raise KeyError
        | Some ghg =>
            let* em' := lift (estimate_historic emission_add s3_emissions em) in
            match emissions_intensities hd with
            | None => raise AttributeError
            | Some ei =>
                let* ei' := lift (estimate_historic ei_add bm_ei_s3 ei) in
                match projected_intensities company with
                | None => raise AttributeError
                | Some pi =>
                    let* pi' := estimate_projected bm_ei_s3 pi in
                    do emit (LogInfoAddedS3 (company_id company) sec region') then
                    ret (mkC (company_id company) (sector company) (region company)
                             (ghg_s1s2 company) (Some ghg)
                             (Some (mkH (Some em') (Some ei')))
                             (Some pi') (projected_targets company))
                end
            end
        end
  end end end end end end end end.
End EstimateS3.

(** ** Definitions used to state the properties *)

(** Year columns in strictly increasing order. *)
Fixpoint strictly_ascending (l : list Z) : bool :=
  match l with
  | x :: l' =>
      match l' with
      | y :: _ => bool_decide (x < y) && strictly_ascending l'
      | [] => true
      end
  | [] => true
  end.

(** The budget a year is compared against: with a budget year given, a
    year strictly before it takes the budget-year value (when that value
    is no NaN); otherwise the year's own budget. *)
Definition effective_budget (budget_year : option Z) (cols : list Z)
           (brow : list Mag) (y : Z) : Mag :=
  match budget_year_given budget_year with
  | Some b =>
      if bool_decide (y < b) then
        match cell cols brow b with
        | Some (Some v) => Some v
        | _ => cell_or_nan cols brow y
        end
      else cell_or_nan cols brow y
  | None => cell_or_nan cols brow y
  end.

(** The subject is within the budget at year [y]. *)
Definition within_budget (budget_year : option Z) (cols : list Z)
           (srow brow : list Mag) (y : Z) : bool :=
  mag_le (cell_or_nan cols srow y) (effective_budget budget_year cols brow y).

(** The raw comparison of the two tables, no budget year involved. *)
Definition within_table_budget (cols : list Z) (srow brow : list Mag) (y : Z) : bool :=
  mag_le (cell_or_nan cols srow y) (cell_or_nan cols brow y).

(** The entry of a returned series at a row label. *)
Definition result_at {A} (res : list (RowKey * A)) (k : RowKey) : option A :=
  snd <$> List.find (fun r => bool_decide (fst r = k)) res.

(** The rightmost column where the subject is within the budget row. *)
Fixpoint last_compliant (cols : list Z) (srow brow : list Mag) : option Z :=
  match cols, srow, brow with
  | c :: cols', s :: srow', b :: brow' =>
      match last_compliant cols' srow' brow' with
      | Some y => Some y
      | None => if mag_le s b then Some c else None
      end
  | _, _, _ => None
  end.

(** The row of a table at a label, empty when the label is missing. *)
Definition row_of (df : DataFrame) (k : RowKey) : list Mag :=
  default [] (loc_row df k).

(** The budget year does not make [df_budget[budget_year]] fail: it is a
    column, or no column lies before it. *)
Definition budget_year_usable (budget_year : option Z) (cols : list Z) : bool :=
  match budget_year_given budget_year with
  | Some b => bool_decide (b ∈ cols) || forallb (fun c => bool_decide (b <= c)) cols
  | None => true
  end.

(** ** Example tables *)

Definition q (n : Z) : Mag := Some (inject_Z n).

Definition row_A : RowKey := ("A"%string, EScope.S1S2).
Definition row_B : RowKey := ("B"%string, EScope.S1S2).

(** A subject that is above its own-year budget in both years, and below
    the 2021 budget in 2020. *)
Definition ex_subject : DataFrame := mkDF [2020; 2021] [(row_A, [q 5; q 20])].
Definition ex_budget : DataFrame := mkDF [2020; 2021] [(row_A, [q 1; q 10])].

(** A budget with a row the subject lacks. *)
Definition ex_budget_two_rows : DataFrame :=
  mkDF [2020; 2021] [(row_A, [q 1; q 10]); (row_B, [q 7; q 9])].

(** ** Units, for the examples *)

(** Modelled from the spec: the unit registry ([ITR/data/osc_units.py],
    which is not among the sources).  The spec has intensities in a unit
    X/Y, production in the unit Y and cumulative emissions "expressed in a
    canonical mass unit": a unit is here its size in the coherent unit of
    its dimension (Mt CO2 for a mass of CO2) and the exponents of the mass
    of CO2 and of the energy. *)
Record SimpleUnit := mkU { size : Q; mass_exponent : Z; energy_exponent : Z }.

Definition simple_mul (a b : SimpleUnit) : SimpleUnit :=
  mkU (Qred (size a * size b)) (mass_exponent a + mass_exponent b)
      (energy_exponent a + energy_exponent b).

Definition simple_to_Mt_CO2 (u : SimpleUnit) : option Q :=
  if bool_decide (mass_exponent u = 1) && bool_decide (energy_exponent u = 0)
  then Some (size u) else None.

Definition t_CO2_per_GJ : SimpleUnit := mkU (1 # 1000000) 1 (-1).
Definition Mt_CO2_per_GJ : SimpleUnit := mkU 1 1 (-1).
Definition GJ : SimpleUnit := mkU 1 0 1.
(** A production counted in pieces, not in energy. *)
Definition pieces : SimpleUnit := mkU 1 0 0.

(** The row of a table of quantities at a label: its unit and cells. *)
Definition row_at {Unit} (df : PintFrame Unit) (k : RowKey) : option (Unit * list Mag) :=
  snd <$> List.find (fun r => bool_decide (fst r = k)) (pint_rows df).

(** The row labels of a table of quantities. *)
Definition pint_index {Unit} (df : PintFrame Unit) : list RowKey :=
  map fst (pint_rows df).

(** The tables of [test_get_cumulative_value]: default integer labels on
    both axes, one unit for the whole table. *)
Definition row_0 : RowKey := ("0"%string, EScope.S1S2).
Definition row_1 : RowKey := ("1"%string, EScope.S1S2).
Definition ex_ei {Unit} (u : Unit) : PintFrame Unit :=
  mkPF [0; 1] [(row_0, (u, [q 1; q 2])); (row_1, (u, [q 3; q 4]))].
Definition ex_production {Unit} (u : Unit) : PintFrame Unit :=
  mkPF [0; 1] [(row_0, (u, [q 2; q 4])); (row_1, (u, [q 6; q 8]))].

(** An intensity table that lacks a year the production table has. *)
Definition ex_ei_short : PintFrame SimpleUnit :=
  mkPF [2020] [(row_A, (t_CO2_per_GJ, [q 1]))].
Definition ex_production_long : PintFrame SimpleUnit :=
  mkPF [2020; 2021] [(row_A, (GJ, [q 2; q 4]))].

(** A production table in a unit that does not multiply the intensity to
    a mass of CO2. *)
Definition ex_production_pieces : PintFrame SimpleUnit :=
  mkPF [2020] [(row_A, (pieces, [q 2]))].

(** The value of a magnitude that is no NaN. *)
Definition mag_value (m : Mag) : Q := default 0%Q m.

(** The products of an intensity row and a production row, year by year. *)
Definition products (ei_row p_row : list Mag) : list Q :=
  zip_with (fun a b => (mag_value a * mag_value b)%Q) ei_row p_row.

(** The sum of the products of the years up to and including
    position [j]. *)
Definition running_sum (ei_row p_row : list Mag) (j : nat) : Q :=
  foldr Qplus 0%Q (take (S j) (products ei_row p_row)).

(** A row with a finite value for each year column. *)
Definition finite_row (cols : list Z) (row : list Mag) : Prop :=
  length row = length cols /\ forall v, v ∈ row -> v <> None.

(** The product of intensity and production at a year. *)
Definition product_at (ei_cols : list Z) (ei_row : list Mag)
           (p_cols : list Z) (p_row : list Mag) (y : Z) : Mag :=
  mag_mul (cell_or_nan ei_cols ei_row y) (cell_or_nan p_cols p_row y).

(** The products of one row over a list of years. *)
Definition product_row (ei_cols : list Z) (ei_row : list Mag)
           (p_cols : list Z) (p_row : list Mag) (years : list Z) : list Mag :=
  map (fun y => mag_mul (cell_or_nan ei_cols ei_row y) (cell_or_nan p_cols p_row y)) years.

(** ** The operations of the libraries, for the examples *)

(** Modelled from the spec: the [add] methods of the point classes
    ([IEmissionRealization.add], [IEIRealization.add] and
    [ICompanyEIProjection.add] of [ITR/interfaces.py], which is not among
    the sources): the spec has the S3 point "summed onto the primary
    series point-by-point", so the sum keeps the year of the primary point
    and adds the values. *)
Definition point_add (p o : Realization) : Exn + Realization :=
  inr (mkR (year p) (mag_add (value p) (value o))).

(** A Series addition that never raises. *)
Definition never_raises (a b : Series) : bool := false.

(** A run with the debugger hook disabled ([PYTHONBREAKPOINT=0]):
    [breakpoint()] returns at once. *)
Definition breakpoint_disabled : M unit := ret tt.

(** A run without a terminal: the debugger reads the end of its input and
    quits. *)
Definition breakpoint_quits : M unit := raise BdbQuit.

(** Python floats: the quotient by zero raises. *)
Definition float_zero_division (a : Mag) : Exn + Mag := inl ZeroDivisionError.


(** A company with no data but its identity. *)
Definition bare_company (id sector region : string) : ICompanyData :=
  mkC id sector region None None None None None.

(** A benchmark that publishes S1, S1S2 and S1S2S3 for Steel, globally. *)
Definition ex_ei_df : list (string * string * EScope.t) :=
  [("Steel", "Global", EScope.S1); ("Steel", "Global", EScope.S1S2);
   ("Steel", "Global", EScope.S1S2S3)]%string.

Definition ex_steel_company : ICompanyData := bare_company "C1" "Steel" "Asia".

(** The scopes the benchmark publishes for a sector and a region, in the
    order of its rows. *)
Definition published (ei_df : list (string * string * EScope.t))
           (sec reg : string) : list EScope.t :=
  map snd (List.filter (fun r => bool_decide (fst (fst r) = sec /\ snd (fst r) = reg))
                       ei_df).

(** The region a company is looked up at: its own when the benchmark has
    a row for its sector there, "Global" otherwise. *)
Definition region_after_fallback (ei_df : list (string * string * EScope.t))
           (sec reg : string) : string :=
  if bool_decide (published ei_df sec reg = []) then "Global"%string else reg.

(** The scopes the benchmark publishes for a company, after the fallback
    to "Global". *)
Definition published_for (ei_df : list (string * string * EScope.t))
           (c : ICompanyData) : list EScope.t :=
  published ei_df (sector c) (region_after_fallback ei_df (sector c) (region c)).

(** Benchmarks that define S1, S1S2 and S1S2S3; S1S2 is
    production-centric. *)
Definition ex_benchmarks_S1S2 : Benchmarks.t :=
  Benchmarks.mk (Some (mkB true)) None (Some (mkB true)) None (Some (mkB true)).

(** The warehouse built for the Steel company of Asia. *)
Definition ex_warehouse : DataWarehouse :=
  mkW [ex_steel_company] (<[ "C1"%string := EScope.S1S2S3 ]> ∅).

(** A company whose base-year S3 emissions are present and NaN. *)
Definition ex_company_nan_s3 : ICompanyData :=
  mkC "C2" "Steel" "Asia" (Some (q 7)) (Some None) None None None.

(** ** The historic fold *)

(** [pre_s3_data]: the points of the primary series at or before the
    anchor year. *)
Definition pre_anchor (anchor : Z) (primary : list Realization) : list Realization :=
  List.filter (fun p => bool_decide (year p <= anchor)) primary.

(** A magnitude one can divide by: not zero. *)
Definition nonzero (m : Mag) : bool :=
  match m with Some d => negb (Qeq_bool d 0) | None => true end.

(** The back-cast of S3 onto an earlier point [x]: the first S3 value
    times the value of [x], over the value of [last_pre]. *)
Definition back_cast (s3_first last_pre x : Realization) : Realization :=
  mkR (year x)
      (match value last_pre, mag_mul (value s3_first) (value x) with
       | Some d, Some n => Some (Qred (n / d))
       | _, _ => None
       end).

Definition years_ascending (l : list Realization) : bool :=
  strictly_ascending (map year l).

Definition pt (y n : Z) : Realization := mkR y (q n).

(** A primary series with a point at the anchor year 2020. *)
Definition ex_hist_anchor : Historic.t :=
  Historic.mk [pt 2019 4; pt 2020 8] [] [] [pt 2020 2] [].

(** A primary series whose only point lies before the anchor year, with
    the value zero. *)
Definition ex_hist_before : Historic.t :=
  Historic.mk [pt 2019 0] [] [] [pt 2020 2] [].


(** ** Conservation *)




(** ** Example companies *)

Definition ser (l : list (Z * Z)) : Projections :=
  PSeries (map (fun yv => (fst yv, q (snd yv))) l).




(** An S1S2 and an S1S2S3 projection, and no S3 projection. *)
Definition ex_bundle_S1S2_S1S2S3 : Projected.t :=
  Projected.mk None None
               (Some (mkP "t CO2/GJ" (ser [(2020, 5); (2021, 4)])))
               None
               (Some (mkP "t CO2/GJ" (ser [(2020, 6); (2021, 5)]))).

(** A company with these projections as its trajectories. *)
Definition ex_company_S1S2S3_trajectory : ICompanyData :=
  mkC "C5" "Steel" "Asia" None None None (Some ex_bundle_S1S2_S1S2S3) None.

(** Targets with an S3 target only. *)
Definition ex_targets_S3_only : Projected.t :=
  Projected.mk None None None (Some (mkP "t CO2/GJ" (ser [(2020, 1); (2021, 1)]))) None.

(** Targets with S1 and S3 and neither S2 nor S1S2. *)
Definition ex_targets_S1_S3 : Projected.t :=
  Projected.mk (Some (mkP "t CO2/GJ" (ser [(2020, 3); (2021, 2)]))) None None
               (Some (mkP "t CO2/GJ" (ser [(2020, 1); (2021, 1)]))) None.

(** ** Definitions for the further properties *)



(** ** Definitions for the Excel providers *)

(** Equality of magnitudes up to the representation of the rational. *)
Definition mag_equiv (a b : Mag) : Prop :=
  match a, b with
  | Some x, Some y => (x == y)%Q
  | None, None => True
  | _, _ => False
  end.

(** A magnitude is the rational [x], up to the representation. *)
Definition is_value (v : Mag) (x : Q) : Prop := mag_equiv v (Some x).





(** ** Definitions for the estimate of Scope 3 *)



(** A company with S1S2 data and no S3 data, in Steel, Asia. *)
Definition ex_company_no_s3 : ICompanyData :=
  mkC "C8" "Steel" "Asia" (Some (q 12)) None
      (Some (mkH (Some (Historic.mk [] [] [pt 2019 5; pt 2020 6] [] []))
                 (Some (Historic.mk [] [] [pt 2019 2; pt 2020 3] [] []))))
      (Some (Projected.mk None None
                          (Some (mkP "t CO2/GJ" (ser [(2020, 3); (2021, 2)])))
                          None None))
      None.

(** A benchmark with an S3 intensity, published for Steel globally. *)
Definition ex_provider_s3 : IntensityBenchmarkDataProvider :=
  mkProvider (Benchmarks.mk None None (Some (mkB true)) (Some (mkB true)) None)
             [("Steel", "Global", EScope.S1S2); ("Steel", "Global", EScope.S3)]%string.

Definition ex_info (id : string) : list (string * string) := [("Steel", "Asia")]%string.
Definition ex_s3_production (id sec reg : string) : list Series :=
  [[(2019, q 10); (2020, q 20); (2021, q 30)]].
Definition ex_ei_benchmark (sec reg : string) (s : EScope.t) : Series :=
  [(2019, q 1); (2020, q 2); (2021, q 3)].
Definition no_dimensionality_error (sec reg : string) : bool := false.

(** A benchmark with S1 and S3 intensities and no S1S2 intensity. *)
Definition ex_provider_S1_S3 : IntensityBenchmarkDataProvider :=
  mkProvider (Benchmarks.mk (Some (mkB true)) None None (Some (mkB true)) None)
             [("Steel", "Global", EScope.S1); ("Steel", "Global", EScope.S3)]%string.

(** The estimate of missing S3 data against that benchmark. *)
Definition ex_estimate : ICompanyData -> M ICompanyData :=
  estimate_missing_s3_data 2020 point_add point_add point_add never_raises
    ex_info ex_s3_production ex_ei_benchmark no_dimensionality_error ex_provider_S1_S3.

Definition ex_company_estimated : ICompanyData :=
  Eval vm_compute in
    match snd (estimate_missing_s3_data 2020 point_add point_add point_add never_raises
                 ex_info ex_s3_production ex_ei_benchmark no_dimensionality_error
                 ex_provider_s3 ex_company_no_s3) with
    | inr c' => c'
    | inl _ => ex_company_no_s3
    end.

(** * Properties *)

(** ** Rows, cells and reversed columns *)

Lemma strictly_ascending_cons x l :
  strictly_ascending (x :: l) = true ->
  (forall y, y ∈ l -> x < y) /\ strictly_ascending l = true.
Proof.
  revert x. induction l as [|z l IH]; intros x H.
  - split; [intros y Hy; inversion Hy | reflexivity].
  - cbn [strictly_ascending] in H. apply andb_true_iff in H as [Hxz Hl].
    apply bool_decide_eq_true in Hxz. split; [|exact Hl].
    destruct (IH z Hl) as [Hz _].
    intros y Hy. apply elem_of_cons in Hy as [->|Hy]; [lia|].
    specialize (Hz y Hy). lia.
Qed.

Lemma cell_not_in cols row y : y ∉ cols -> cell cols row y = None.
Proof.
  revert row. induction cols as [|c cols IH]; intros row Hy; [reflexivity|].
  destruct row as [|v row]; [reflexivity|]. cbn.
  rewrite bool_decide_eq_false_2 by (intros ->; apply Hy; left).
  apply IH. intros H. apply Hy. now right.
Qed.

Lemma cell_app_l cols cols' row row' y :
  length cols = length row -> y ∈ cols ->
  cell (cols ++ cols') (row ++ row') y = cell cols row y.
Proof.
  revert row. induction cols as [|c cols IH]; intros row Hlen Hy.
  - inversion Hy.
  - destruct row as [|v row]; [discriminate|]. cbn.
    case_bool_decide; [reflexivity|].
    apply IH; [cbn in Hlen; lia|].
    apply elem_of_cons in Hy as [->|Hy]; [congruence|exact Hy].
Qed.

Lemma cell_app_r cols cols' row row' y :
  length cols = length row -> y ∉ cols ->
  cell (cols ++ cols') (row ++ row') y = cell cols' row' y.
Proof.
  revert row. induction cols as [|c cols IH]; intros row Hlen Hy.
  - destruct row; [reflexivity|discriminate].
  - destruct row as [|v row]; [discriminate|]. cbn.
    rewrite bool_decide_eq_false_2 by (intros ->; apply Hy; left).
    apply IH; [cbn in Hlen; lia|]. intros H. apply Hy. now right.
Qed.

Lemma cell_rev cols row y :
  length cols = length row -> NoDup cols ->
  cell (rev cols) (rev row) y = cell cols row y.
Proof.
  revert row. induction cols as [|c cols IH]; intros row Hlen Hnd.
  - destruct row; [reflexivity|discriminate].
  - destruct row as [|v row]; [discriminate|]. cbn in Hlen.
    apply NoDup_cons in Hnd as [Hc Hnd]. cbn [rev cell].
    case_bool_decide as Hcy.
    + subst y. rewrite cell_app_r.
      * cbn. now rewrite bool_decide_eq_true_2.
      * rewrite !length_rev. lia.
      * rewrite list_elem_of_In, <- in_rev, <- list_elem_of_In. exact Hc.
    + destruct (decide (y ∈ cols)) as [Hin|Hnin].
      * rewrite cell_app_l; [apply IH; [lia|exact Hnd]| |].
        -- rewrite !length_rev. lia.
        -- rewrite list_elem_of_In, <- in_rev, <- list_elem_of_In. exact Hin.
      * rewrite cell_app_r.
        -- cbn. rewrite bool_decide_eq_false_2 by exact Hcy.
           symmetry. now apply cell_not_in.
        -- rewrite !length_rev. lia.
        -- rewrite list_elem_of_In, <- in_rev, <- list_elem_of_In. exact Hnin.
Qed.

Lemma strictly_ascending_NoDup l : strictly_ascending l = true -> NoDup l.
Proof.
  induction l as [|x l IH]; intros H; [constructor|].
  apply strictly_ascending_cons in H as [Hx Hl].
  constructor; [|now apply IH].
  intros Hin. specialize (Hx x Hin). lia.
Qed.

Lemma update_row_length b at_by cols row :
  length (update_row b at_by cols row) = length row.
Proof.
  revert row. induction cols as [|c cols IH]; intros [|v row]; cbn; auto.
Qed.

Lemma update_row_app b at_by cols cols' row row' :
  length cols = length row ->
  update_row b at_by (cols ++ cols') (row ++ row')
  = update_row b at_by cols row ++ update_row b at_by cols' row'.
Proof.
  revert row. induction cols as [|c cols IH]; intros [|v row] Hlen;
    try discriminate; cbn; [reflexivity|].
  f_equal. apply IH. cbn in Hlen. lia.
Qed.

Lemma update_row_rev b at_by cols row :
  length cols = length row ->
  update_row b at_by (rev cols) (rev row) = rev (update_row b at_by cols row).
Proof.
  revert row. induction cols as [|c cols IH]; intros [|v row] Hlen;
    try discriminate; [reflexivity|].
  cbn in Hlen. cbn [rev update_row].
  rewrite update_row_app by (rewrite !length_rev; lia).
  rewrite IH by lia. reflexivity.
Qed.

Lemma flatten_row_length by_ cols row :
  length (flatten_row by_ cols row) = length row.
Proof.
  unfold flatten_row. destruct (budget_year_given by_); [|reflexivity].
  destruct (cell cols row z); [apply update_row_length|reflexivity].
Qed.

Lemma flatten_row_rev by_ cols row :
  length cols = length row -> NoDup cols ->
  flatten_row by_ (rev cols) (rev row) = rev (flatten_row by_ cols row).
Proof.
  intros Hlen Hnd. unfold flatten_row.
  destruct (budget_year_given by_) as [b|]; [|reflexivity].
  rewrite cell_rev by assumption.
  destruct (cell cols row b); [now apply update_row_rev|reflexivity].
Qed.

Lemma cell_update_row b at_by cols row y :
  cell cols (update_row b at_by cols row) y
  = (fun v => if bool_decide (y < b) && negb (mag_isnan at_by) then at_by else v)
      <$> cell cols row y.
Proof.
  revert row. induction cols as [|c cols IH]; intros [|v row];
    cbn [cell update_row]; try reflexivity.
  destruct (decide (c = y)) as [->|Hcy].
  - rewrite !bool_decide_eq_true_2 by reflexivity. reflexivity.
  - rewrite !(bool_decide_eq_false_2 (c = y)) by exact Hcy. apply IH.
Qed.

Lemma cell_is_Some cols (row : list Mag) y :
  length cols = length row -> y ∈ cols -> is_Some (cell cols row y).
Proof.
  revert row. induction cols as [|c cols IH]; intros [|v row] Hlen Hy;
    try discriminate; [inversion Hy|].
  cbn. case_bool_decide; [eauto|].
  apply IH; [cbn in Hlen; lia|].
  apply elem_of_cons in Hy as [->|Hy]; [congruence|exact Hy].
Qed.

(** The flattened budget row holds the effective budget of every year. *)
Lemma cell_flatten_row by_ cols brow y :
  length cols = length brow -> y ∈ cols ->
  cell_or_nan cols (flatten_row by_ cols brow) y = effective_budget by_ cols brow y.
Proof.
  intros Hlen Hy. destruct (cell_is_Some cols brow y Hlen Hy) as [v Hv].
  unfold effective_budget, flatten_row.
  destruct (budget_year_given by_) as [b|]; [|reflexivity].
  destruct (cell cols brow b) as [at_by|] eqn:Hb.
  - unfold cell_or_nan. rewrite cell_update_row, Hv. cbn.
    case_bool_decide; cbn; try reflexivity; now destruct at_by.
  - now case_bool_decide.
Qed.

Lemma first_valid_index_snoc cols srow brow c s b :
  length cols = length srow -> length cols = length brow ->
  first_valid_index (cols ++ [c]) (srow ++ [s]) (brow ++ [b])
  = match first_valid_index cols srow brow with
    | Some y => Some y
    | None => if mag_le s b then Some c else None
    end.
Proof.
  revert srow brow.
  induction cols as [|c0 cols IH]; intros [|s0 srow] [|b0 brow] Hs Hb;
    try discriminate; cbn.
  - now destruct (mag_le s b).
  - destruct (mag_le s0 b0); [reflexivity|].
    apply IH; cbn in *; lia.
Qed.

(** Scanning the reversed columns from the left finds the rightmost
    compliant column. *)
Lemma first_valid_index_rev cols srow brow :
  length cols = length srow -> length cols = length brow ->
  first_valid_index (rev cols) (rev srow) (rev brow) = last_compliant cols srow brow.
Proof.
  revert srow brow.
  induction cols as [|c cols IH]; intros [|s srow] [|b brow] Hs Hb;
    try discriminate; [reflexivity|].
  cbn in Hs, Hb. cbn [rev last_compliant].
  rewrite first_valid_index_snoc by (rewrite !length_rev; lia).
  rewrite IH by lia. reflexivity.
Qed.

Lemma last_compliant_None cols srow brow :
  length cols = length srow -> length cols = length brow -> NoDup cols ->
  last_compliant cols srow brow = None ->
  forall y, y ∈ cols -> within_table_budget cols srow brow y = false.
Proof.
  revert srow brow.
  induction cols as [|c cols IH]; intros [|s srow] [|b brow] Hs Hb Hnd H y Hy;
    try discriminate; [inversion Hy|].
  cbn in Hs, Hb, H. apply NoDup_cons in Hnd as [Hc Hnd].
  destruct (last_compliant cols srow brow) eqn:Hl; [discriminate|].
  destruct (mag_le s b) eqn:Hle; [discriminate|].
  unfold within_table_budget, cell_or_nan. cbn.
  case_bool_decide as Hcy; [exact Hle|].
  apply elem_of_cons in Hy as [->|Hy]; [congruence|].
  apply (IH srow brow); auto; lia.
Qed.

Lemma last_compliant_Some cols srow brow y :
  length cols = length srow -> length cols = length brow ->
  strictly_ascending cols = true ->
  last_compliant cols srow brow = Some y ->
  y ∈ cols /\ within_table_budget cols srow brow y = true
  /\ forall y', y' ∈ cols -> y < y' -> within_table_budget cols srow brow y' = false.
Proof.
  revert srow brow.
  induction cols as [|c cols IH]; intros [|s srow] [|b brow] Hs Hb Hasc H;
    try discriminate.
  cbn in Hs, Hb, H.
  pose proof (strictly_ascending_NoDup _ Hasc) as Hnd.
  apply NoDup_cons in Hnd as [Hc Hnd].
  apply strictly_ascending_cons in Hasc as [Hlt Hasc].
  destruct (last_compliant cols srow brow) as [y0|] eqn:Hl.
  - injection H as ->.
    destruct (IH srow brow ltac:(lia) ltac:(lia) Hasc Hl) as (Hin & Hok & Hlater).
    assert (c <> y) by (intros ->; contradiction).
    split; [now right|]. split.
    + unfold within_table_budget, cell_or_nan in *. cbn.
      now rewrite bool_decide_eq_false_2.
    + intros y' Hy' Hlt'. apply elem_of_cons in Hy' as [->|Hy'].
      * specialize (Hlt y Hin). lia.
      * assert (c <> y') by (intros ->; contradiction).
        unfold within_table_budget, cell_or_nan in *. cbn.
        rewrite bool_decide_eq_false_2 by assumption. now apply Hlater.
  - destruct (mag_le s b) eqn:Hle; [|discriminate]. injection H as <-.
    split; [left|]. split.
    + unfold within_table_budget, cell_or_nan. cbn.
      now rewrite bool_decide_eq_true_2.
    + intros y' Hy' Hlt'. apply elem_of_cons in Hy' as [->|Hy']; [lia|].
      assert (c <> y') by (intros ->; contradiction).
      pose proof (last_compliant_None cols srow brow ltac:(lia) ltac:(lia) Hnd Hl y' Hy') as Hf.
      unfold within_table_budget, cell_or_nan in *. cbn.
      now rewrite bool_decide_eq_false_2.
Qed.

(** ** The exceedance year of a table *)

Lemma loc_row_is_Some df k : k ∈ index df -> is_Some (loc_row df k).
Proof.
  unfold index, loc_row. induction (rows df) as [|r l IH]; intros H.
  - inversion H.
  - cbn. case_bool_decide as Hr; [cbn; eauto|].
    apply elem_of_cons in H as [->|H]; [congruence|]. apply IH, H.
Qed.

Lemma loc_row_None df k : k ∉ index df -> loc_row df k = None.
Proof.
  unfold index, loc_row. induction (rows df) as [|r l IH]; intros H; [reflexivity|].
  cbn. rewrite bool_decide_eq_false_2.
  - apply IH. intros Hin. apply H. now right.
  - intros Heq. apply H. rewrite <- Heq. left.
Qed.

Lemma loc_rev_rows df ks :
  (forall k, k ∈ ks -> k ∈ index df) ->
  rows (loc_rev df ks) = map (fun k => (k, rev (row_of df k))) ks.
Proof.
  unfold loc_rev, row_of. cbn. induction ks as [|k ks IH]; intros H; [reflexivity|].
  cbn. destruct (loc_row_is_Some df k (H k ltac:(left))) as [r ->]. cbn.
  f_equal. apply IH. intros k' Hk'. apply H. now right.
Qed.

Lemma aligned_rows_spec s b k :
  k ∈ aligned_rows s b <-> k ∈ index b /\ k ∈ index s.
Proof.
  unfold aligned_rows, key_in.
  rewrite list_elem_of_In, filter_In, <- list_elem_of_In, bool_decide_eq_true.
  reflexivity.
Qed.

Lemma missing_subjects_spec s b k :
  k ∈ missing_subjects s b <-> k ∈ index b /\ k ∉ index s.
Proof.
  unfold missing_subjects, key_in.
  rewrite list_elem_of_In, filter_In, <- list_elem_of_In, negb_true_iff,
    bool_decide_eq_false.
  reflexivity.
Qed.

Lemma zip_map_same {A B C} (f : A -> B) (g : A -> C) (l : list A) :
  zip (map f l) (map g l) = map (fun a => (f a, g a)) l.
Proof. induction l; cbn; congruence. Qed.

Lemma flatten_budget_usable by_ df :
  budget_year_usable by_ (rev (columns df)) = true ->
  flatten_budget by_ (mkDF (rev (columns df)) (rows df))
  = inr (mkDF (rev (columns df))
              (map (fun r => (fst r, flatten_row by_ (rev (columns df)) (snd r)))
                   (rows df))).
Proof.
  unfold budget_year_usable, flatten_budget, flatten_row. cbn.
  destruct (budget_year_given by_) as [b|] eqn:Hb; intros H.
  - apply orb_true_iff in H as [H|H].
    + rewrite H. cbn. rewrite andb_false_r. reflexivity.
    + replace (existsb _ _) with false; [reflexivity|].
      symmetry. apply not_true_is_false. intros He.
      apply existsb_exists in He as (c & Hc & Hlt).
      rewrite forallb_forall in H. specialize (H c Hc).
      apply bool_decide_eq_true in H, Hlt. lia.
  - destruct df as [cs rs]. cbn. f_equal. f_equal.
    induction rs as [|[k r] rs IH]; cbn; congruence.
Qed.

Lemma budget_year_usable_rev by_ cols :
  budget_year_usable by_ cols = true -> budget_year_usable by_ (rev cols) = true.
Proof.
  unfold budget_year_usable. destruct (budget_year_given by_) as [b|]; [|auto].
  intros H. apply orb_true_iff in H as [H|H]; apply orb_true_iff.
  - left. apply bool_decide_eq_true in H. apply bool_decide_eq_true.
    now rewrite list_elem_of_In, <- in_rev, <- list_elem_of_In.
  - right. rewrite forallb_forall in *. intros c Hc. apply H. now apply in_rev.
Qed.

(** What [_get_exceedance_year] returns when the two tables have the same
    columns and the budget year is usable: one entry per aligned row, then
    one per budget row the subject lacks. *)
Lemma _get_exceedance_year_eq BASE TARGET s b by_ :
  columns s = columns b ->
  budget_year_usable by_ (columns b) = true ->
  _get_exceedance_year BASE TARGET s b by_
  = inr (map (fun k => (k, exceedance_map BASE TARGET
                             (first_valid_index (rev (columns b)) (rev (row_of s k))
                                (flatten_row by_ (rev (columns b)) (rev (row_of b k))))))
             (aligned_rows s b)
         ++ map (fun k => (k, Some BASE)) (missing_subjects s b)).
Proof.
  intros Hcols Hby. unfold _get_exceedance_year.
  cbn [columns loc_rev]. rewrite Hcols.
  rewrite !bool_decide_eq_true_2 by reflexivity. cbn [negb].
  pose proof (flatten_budget_usable by_ (mkDF (columns b) (rows (loc_rev b (aligned_rows s b))))
                (budget_year_usable_rev _ _ Hby)) as Hf.
  cbn [columns rows] in Hf.
  change (mkDF (rev (columns b)) (rows (loc_rev b (aligned_rows s b))))
    with (loc_rev b (aligned_rows s b)) in Hf.
  rewrite Hf. cbn [rows columns].
  rewrite !loc_rev_rows by (intros k Hk; apply aligned_rows_spec in Hk; tauto).
  rewrite map_map. cbn [fst snd].
  rewrite zip_map_same, map_app, !map_map. cbn [fst snd].
  reflexivity.
Qed.

Lemma result_at_app_map {A} (h : RowKey -> A) ks rest k :
  k ∈ ks ->
  result_at (map (fun k' => (k', h k')) ks ++ rest) k = Some (h k).
Proof.
  unfold result_at. induction ks as [|k0 ks IH]; intros H; [inversion H|].
  cbn. case_bool_decide as Hk; [subst; reflexivity|].
  apply elem_of_cons in H as [->|H]; [congruence|]. apply IH, H.
Qed.

(** C1 (as amended).  For a row common to the subject and the budget
    tables, over strictly ascending year columns, [_get_exceedance_year]
    returns the latest year at which the subject's cumulative value is at
    most the effective budget (the budget-year value for the years before
    a given budget year, the year's own budget otherwise); with no such
    year the result is [BASE_YEAR], and a year at or beyond [TARGET_YEAR]
    gives the no-exceedance sentinel. *)
Theorem exceedance_year_latest_within_effective_budget
  (BASE TARGET : Z) (s b : DataFrame) (by_ : option Z) (k : RowKey)
  (srow brow : list Mag) :
  columns s = columns b ->
  strictly_ascending (columns b) = true ->
  budget_year_usable by_ (columns b) = true ->
  loc_row s k = Some srow -> loc_row b k = Some brow ->
  length srow = length (columns b) -> length brow = length (columns b) ->
  exists res r,
    _get_exceedance_year BASE TARGET s b by_ = inr res
    /\ result_at res k = Some r
    /\ (((forall y, y ∈ columns b -> within_budget by_ (columns b) srow brow y = false)
         /\ r = Some BASE)
        \/ (exists y, y ∈ columns b
              /\ within_budget by_ (columns b) srow brow y = true
              /\ (forall y', y' ∈ columns b -> y < y' ->
                             within_budget by_ (columns b) srow brow y' = false)
              /\ r = if bool_decide (TARGET <= y) then None else Some y)).
Proof.
  intros Hcols Hasc Hby Hs Hb Hls Hlb.
  pose proof (strictly_ascending_NoDup _ Hasc) as Hnd.
  assert (Hk : k ∈ aligned_rows s b).
  { apply aligned_rows_spec. split.
    - destruct (decide (k ∈ index b)) as [|Hn]; [assumption|].
      rewrite (loc_row_None _ _ Hn) in Hb. discriminate.
    - destruct (decide (k ∈ index s)) as [|Hn]; [assumption|].
      rewrite (loc_row_None _ _ Hn) in Hs. discriminate. }
  rewrite (_get_exceedance_year_eq BASE TARGET s b by_ Hcols Hby).
  eexists. eexists. split; [reflexivity|]. split.
  { apply (result_at_app_map
             (fun k => exceedance_map BASE TARGET
                         (first_valid_index (rev (columns b)) (rev (row_of s k))
                            (flatten_row by_ (rev (columns b)) (rev (row_of b k))))));
      exact Hk. }
  unfold row_of. rewrite Hs, Hb. unfold default, from_option, id.
  rewrite flatten_row_rev by (auto; lia).
  rewrite first_valid_index_rev by (rewrite ?flatten_row_length; lia).
  assert (Hw : forall y, y ∈ columns b ->
             within_table_budget (columns b) srow (flatten_row by_ (columns b) brow) y
             = within_budget by_ (columns b) srow brow y).
  { intros y Hy. unfold within_table_budget, within_budget.
    rewrite cell_flatten_row by (auto; lia). reflexivity. }
  destruct (last_compliant (columns b) srow (flatten_row by_ (columns b) brow))
    as [y|] eqn:Hl.
  - right. exists y.
    assert (Hl1 : length (columns b) = length srow) by lia.
    assert (Hl2 : length (columns b) = length (flatten_row by_ (columns b) brow))
      by (rewrite flatten_row_length; lia).
    destruct (last_compliant_Some _ _ _ _ Hl1 Hl2 Hasc Hl) as (Hin & Hok & Hlater).
    split; [exact Hin|]. split; [now rewrite <- Hw|]. split; [|reflexivity].
    intros y' Hy' Hlt. rewrite <- Hw by exact Hy'. now apply Hlater.
  - left. split; [|reflexivity].
    intros y Hy. rewrite <- Hw by exact Hy.
    eapply last_compliant_None; eauto; rewrite ?flatten_row_length; lia.
Qed.

Lemma exceedance_year_latest_within_effective_budget_witness :
  exists res r,
    _get_exceedance_year 2019 2050 ex_subject ex_budget (Some 2021) = inr res
    /\ result_at res row_A = Some r
    /\ (((forall y, y ∈ columns ex_budget ->
                    within_budget (Some 2021) (columns ex_budget) [q 5; q 20] [q 1; q 10] y = false)
         /\ r = Some 2019)
        \/ (exists y, y ∈ columns ex_budget
              /\ within_budget (Some 2021) (columns ex_budget) [q 5; q 20] [q 1; q 10] y = true
              /\ (forall y', y' ∈ columns ex_budget -> y < y' ->
                    within_budget (Some 2021) (columns ex_budget) [q 5; q 20] [q 1; q 10] y' = false)
              /\ r = if bool_decide (2050 <= y) then None else Some y)).
Proof.
  apply (exceedance_year_latest_within_effective_budget 2019 2050 ex_subject ex_budget
           (Some 2021) row_A [q 5; q 20] [q 1; q 10]); reflexivity.
Defined.

(** Counterexample to C1 as stated: with the budget year 2021 the subject
    is above the table's budget in 2020 and in 2021, so no year has
    subject <= budget and the claim gives [BASE_YEAR] = 2019; the code
    compares 2020 against the 2021 budget and returns 2020. *)
Lemma exceedance_year_ignores_own_year_budget :
  within_table_budget [2020; 2021] [q 5; q 20] [q 1; q 10] 2020 = false
  /\ within_table_budget [2020; 2021] [q 5; q 20] [q 1; q 10] 2021 = false
  /\ _get_exceedance_year 2019 2050 ex_subject ex_budget (Some 2021)
     = inr [(row_A, Some 2020)].
Proof. repeat split; reflexivity. Qed.

(** C5 (as amended).  A row of the budget table that the subject table
    lacks is not excluded: it is an entry of the returned series.  The rows
    that are excluded are those of the subject table that the budget table
    lacks. *)
Theorem exceedance_year_rows
  (BASE TARGET : Z) (s b : DataFrame) (by_ : option Z)
  (res : list (RowKey * option Z)) (k : RowKey) :
  _get_exceedance_year BASE TARGET s b by_ = inr res ->
  (k ∈ index b -> k ∉ index s -> k ∈ map fst res)
  /\ (k ∈ index s -> k ∉ index b -> k ∉ map fst res).
Proof.
  unfold _get_exceedance_year. intros H.
  repeat match type of H with
         | (if ?c then _ else _) = _ => destruct c; [discriminate|]
         end.
  destruct (flatten_budget _ _) as [e|budg'] eqn:Hf; [discriminate|].
  injection H as <-.
  rewrite map_map, map_app, !map_map. cbn [fst]. split.
  - intros Hb Hs. apply elem_of_app. right.
    rewrite map_id. now apply missing_subjects_spec.
  - intros Hs Hb Hin. apply elem_of_app in Hin as [Hin|Hin].
    + apply list_elem_of_fmap in Hin as ([[k1 r1] [k2 r2]] & -> & Hsb).
      apply elem_of_zip_l in Hsb. cbn [fst].
      unfold loc_rev in Hsb. cbn [rows] in Hsb.
      apply list_elem_of_omap in Hsb as (k' & Hk' & Hsome).
      destruct (loc_row s k') as [row|] eqn:Hrow; [|discriminate].
      cbn in Hsome. injection Hsome as <- _.
      apply aligned_rows_spec in Hk' as [Hkb _]. contradiction.
    + rewrite map_id in Hin. apply missing_subjects_spec in Hin. tauto.
Qed.

(** C5 witness and counterexample. *)
Lemma exceedance_year_rows_witness :
  row_B ∈ map fst [(row_A, Some 2019); (row_B, Some 2019)].
Proof.
  apply (proj1 (exceedance_year_rows 2019 2050 ex_subject ex_budget_two_rows None
                  [(row_A, Some 2019); (row_B, Some 2019)] row_B eq_refl)).
  - apply (bool_decide_eq_true_1 (row_B ∈ index ex_budget_two_rows)).
    reflexivity.
  - apply (bool_decide_eq_false_1 (row_B ∈ index ex_subject)).
    reflexivity.
Defined.

(** Counterexample to C5 as stated: the budget row [row_B], which the
    subject table lacks, is in the result. *)
Lemma exceedance_year_keeps_missing_subject :
  bool_decide (row_B ∈ index ex_budget_two_rows) = true
  /\ bool_decide (row_B ∈ index ex_subject) = false
  /\ _get_exceedance_year 2019 2050 ex_subject ex_budget_two_rows None
     = inr [(row_A, Some 2019); (row_B, Some 2019)]
  /\ result_at [(row_A, Some 2019); (row_B, Some 2019)] row_B = Some (Some 2019).
Proof. repeat split; reflexivity. Qed.

(** ** Cumulative emissions *)

Lemma insert_year_elem y x l : y ∈ insert_year x l <-> y = x \/ y ∈ l.
Proof.
  induction l as [|z l IH]; cbn.
  - rewrite elem_of_cons. reflexivity.
  - case_bool_decide; rewrite !elem_of_cons; [reflexivity|].
    rewrite IH. tauto.
Qed.

Lemma sort_years_elem y l : y ∈ sort_years l <-> y ∈ l.
Proof.
  induction l as [|x l IH]; cbn; [reflexivity|].
  rewrite insert_year_elem, IH, elem_of_cons. reflexivity.
Qed.

Lemma union_years_elem y a b : y ∈ union_years a b <-> y ∈ a \/ y ∈ b.
Proof.
  unfold union_years. case_bool_decide as H.
  - subst. tauto.
  - rewrite sort_years_elem, elem_of_remove_dups, elem_of_app. reflexivity.
Qed.

Lemma union_years_same a : union_years a a = a.
Proof. unfold union_years. now rewrite bool_decide_eq_true_2. Qed.

Lemma select_rows_total df ks :
  (forall k, k ∈ ks -> is_Some (loc_row df k)) ->
  select_rows df ks = Some (map (row_of df) ks).
Proof.
  induction ks as [|k ks IH]; intros H; [reflexivity|].
  cbn. destruct (H k ltac:(left)) as [r Hr]. unfold row_of at 1. rewrite Hr.
  rewrite IH by (intros k' Hk'; apply H; now right). reflexivity.
Qed.

Lemma select_rows_missing df ks k :
  k ∈ ks -> loc_row df k = None -> select_rows df ks = None.
Proof.
  induction ks as [|k0 ks IH]; intros Hin Hk; [inversion Hin|].
  cbn. apply elem_of_cons in Hin as [->|Hin].
  - now rewrite Hk.
  - rewrite (IH Hin Hk). now destruct (loc_row df k0).
Qed.

Lemma zip_with_map_fst {A B C} (f : A -> C) (l : list (A * B)) :
  zip l (map f (map fst l)) = map (fun r => (r, f (fst r))) l.
Proof. induction l; cbn; congruence. Qed.

(** *** Running sums *)

Lemma cumsum_from_length acc row : length (cumsum_from acc row) = length row.
Proof.
  revert acc. induction row as [|v row IH]; intros acc; [reflexivity|].
  cbn. now rewrite IH.
Qed.

Lemma cumsum_row_length row : length (cumsum_row row) = length row.
Proof. destruct row; [reflexivity|]. cbn. now rewrite cumsum_from_length. Qed.

Lemma cumsum_from_no_nan acc row :
  mag_isnan acc = false -> existsb mag_isnan row = false ->
  existsb mag_isnan (cumsum_from acc row) = false.
Proof.
  revert acc. induction row as [|v row IH]; intros acc Ha H; [reflexivity|].
  cbn in *. apply orb_false_iff in H as [Hv Hr].
  destruct acc, v; try discriminate. cbn. now apply IH.
Qed.

Lemma cumsum_row_no_nan row :
  existsb mag_isnan row = false -> existsb mag_isnan (cumsum_row row) = false.
Proof.
  destruct row as [|v row]; [reflexivity|]. cbn. intros H.
  apply orb_false_iff in H as [Hv Hr]. rewrite Hv. cbn.
  now apply cumsum_from_no_nan.
Qed.

Lemma cumsum_from_sum acc a row xs j c :
  is_value acc a -> Forall2 is_value row xs ->
  cumsum_from acc row !! j = Some c ->
  is_value c (a + foldr Qplus 0%Q (take (S j) xs))%Q.
Proof.
  intros Ha Hrow. revert acc a Ha j c.
  induction Hrow as [|v x row xs Hv Hrow IH]; intros acc a Ha j c Hc; [discriminate|].
  cbn [cumsum_from] in Hc.
  assert (Hacc : is_value (mag_add acc v) (a + x)%Q).
  { unfold is_value, mag_equiv in *. destruct acc as [a'|], v as [v'|]; try contradiction.
    cbn. rewrite Qred_correct, Ha, Hv. reflexivity. }
  destruct j as [|j].
  - cbn in Hc. injection Hc as <-.
    unfold is_value, mag_equiv in *. destruct (mag_add acc v); [|contradiction].
    cbn [firstn fold_right]; rewrite ?firstn_O; cbn [fold_right]. rewrite Hacc. ring.
  - cbn in Hc. specialize (IH _ _ Hacc j c Hc).
    unfold is_value, mag_equiv in *. destruct c; [|contradiction].
    rewrite IH. cbn [firstn fold_right]; rewrite ?firstn_O; cbn [fold_right]. ring.
Qed.

Lemma cumsum_row_sum row xs j c :
  Forall2 is_value row xs ->
  cumsum_row row !! j = Some c ->
  is_value c (foldr Qplus 0%Q (take (S j) xs)).
Proof.
  intros Hrow Hc. destruct Hrow as [|v x row xs Hv Hrow]; [discriminate|].
  cbn [cumsum_row] in Hc. destruct j as [|j].
  - cbn in Hc. injection Hc as <-. unfold is_value, mag_equiv in *.
    destruct v; [|contradiction]. cbn [firstn fold_right]; rewrite ?firstn_O; cbn [fold_right]. rewrite Hv. ring.
  - cbn in Hc. pose proof (cumsum_from_sum v x row xs j c Hv Hrow Hc) as H.
    unfold is_value, mag_equiv in *. destruct c; [|contradiction].
    rewrite H. cbn [firstn fold_right]; rewrite ?firstn_O; cbn [fold_right]. ring.
Qed.

(** *** Cells by position *)

Lemma cell_lookup cols (row : list Mag) j y :
  NoDup cols -> cols !! j = Some y -> cell cols row y = row !! j.
Proof.
  revert row j. induction cols as [|c cols IH]; intros row j Hnd Hj; [discriminate|].
  apply NoDup_cons in Hnd as [Hc Hnd].
  destruct row as [|v row].
  - now destruct j.
  - cbn. destruct j as [|j].
    + cbn in Hj. injection Hj as ->. now rewrite bool_decide_eq_true_2.
    + cbn in Hj. rewrite bool_decide_eq_false_2.
      * exact (IH row j Hnd Hj).
      * intros ->. apply Hc. eapply list_elem_of_lookup_2, Hj.
Qed.

Lemma product_row_lookup cols r p j y :
  NoDup cols -> cols !! j = Some y ->
  product_row cols r cols p cols !! j
  = Some (mag_mul (default None (r !! j)) (default None (p !! j))).
Proof.
  intros Hnd Hj. unfold product_row. rewrite list_lookup_fmap, Hj. cbn.
  unfold cell_or_nan. rewrite !(cell_lookup cols _ j y Hnd Hj).
  now destruct (r !! j), (p !! j).
Qed.

Lemma product_row_length cols r cols' p years :
  length (product_row cols r cols' p years) = length years.
Proof. unfold product_row. apply length_map. Qed.

(** With the same, distinct year columns and finite rows, the products
    of a row are, position by position, the products of the values. *)
Lemma product_row_values cols r p :
  NoDup cols -> finite_row cols r -> finite_row cols p ->
  Forall2 is_value (product_row cols r cols p cols) (products r p).
Proof.
  intros Hnd [Hlr Hr] [Hlp Hp]. apply Forall2_same_length_lookup. split.
  - rewrite product_row_length. unfold products.
    rewrite length_zip_with. lia.
  - intros j v x Hv Hx.
    assert (Hj : (j < length cols)%nat).
    { apply lookup_lt_Some in Hv. now rewrite product_row_length in Hv. }
    destruct (lookup_lt_is_Some_2 cols j Hj) as [y Hy].
    rewrite (product_row_lookup cols r p j y Hnd Hy) in Hv. injection Hv as <-.
    unfold products in Hx. apply lookup_zip_with_Some in Hx as (a & b & -> & Ha & Hb).
    unfold Mag in *. rewrite Ha, Hb. cbn.
    pose proof (Hr a (list_elem_of_lookup_2 _ _ _ Ha)) as Hna.
    pose proof (Hp b (list_elem_of_lookup_2 _ _ _ Hb)) as Hnb.
    destruct a as [a|], b as [b|]; try congruence.
    unfold is_value. cbn. apply Qred_correct.
Qed.

Lemma product_row_finite cols r p :
  NoDup cols -> finite_row cols r -> finite_row cols p ->
  existsb mag_isnan (product_row cols r cols p cols) = false.
Proof.
  intros Hnd Hr Hp. apply not_true_iff_false. intros H.
  apply existsb_exists in H as (v & Hv & Hnan).
  apply list_elem_of_In, list_elem_of_lookup_1 in Hv as [j Hj].
  pose proof (product_row_values cols r p Hnd Hr Hp) as Hall.
  destruct (Forall2_lookup_l _ _ _ _ _ Hall Hj) as (x & _ & Hx).
  unfold is_value in Hx. now destruct v.
Qed.

(** *** Tables of quantities *)

Section CumulativeProperties.
Context {Unit : Type}.
Variable unit_mul : Unit -> Unit -> Unit.
Variable to_Mt_CO2 : Unit -> option Q.
Implicit Types ei prod df : PintFrame Unit.

Lemma loc_row_magnitudes df k : loc_row (magnitudes df) k = snd <$> row_at df k.
Proof.
  unfold loc_row, row_at, magnitudes. cbn [rows].
  induction (pint_rows df) as [|[k0 [u r]] l IH]; [reflexivity|].
  cbn. case_bool_decide; [reflexivity|exact IH].
Qed.

Lemma unit_of_row_at df k : unit_of df k = fst <$> row_at df k.
Proof.
  unfold unit_of, row_at. now destruct (List.find _ (pint_rows df)).
Qed.

Lemma row_at_is_Some df k : k ∈ pint_index df -> is_Some (row_at df k).
Proof.
  unfold pint_index, row_at. induction (pint_rows df) as [|r l IH]; intros H.
  - inversion H.
  - cbn. case_bool_decide as Hr; [cbn; eauto|].
    apply elem_of_cons in H as [->|H]; [congruence|]. apply IH, H.
Qed.



Lemma convert_row_Some u c row :
  to_Mt_CO2 u = Some c -> convert_row to_Mt_CO2 u row = inr (map (mag_mul (Some c)) row).
Proof. unfold convert_row. intros ->. now destruct row. Qed.

Lemma convert_row_inr u row row' :
  convert_row to_Mt_CO2 u row = inr row' ->
  (row = [] /\ row' = [])
  \/ exists c, to_Mt_CO2 u = Some c /\ row' = map (mag_mul (Some c)) row.
Proof.
  unfold convert_row. destruct row as [|v row].
  - intros H. injection H as <-. now left.
  - destruct (to_Mt_CO2 u) as [c|]; [|discriminate].
    intros H. injection H as <-. right. eauto.
Qed.

Lemma convert_row_inl u row e :
  convert_row to_Mt_CO2 u row = inl e ->
  e = DimensionalityError /\ to_Mt_CO2 u = None /\ row <> [].
Proof.
  unfold convert_row. destruct row as [|v row]; [discriminate|].
  destruct (to_Mt_CO2 u); [discriminate|].
  intros H. injection H as <-. now repeat split.
Qed.

Lemma convert_rows_omap {A} (f : A -> option Unit) (g : A -> RowKey * list Mag)
      (l : list A) :
  (forall a, a ∈ l -> is_Some (f a)) ->
  match convert_rows to_Mt_CO2 (omap f l) (map g l) with
  | inr res =>
      length res = length l
      /\ forall i a, l !! i = Some a ->
           exists u row, f a = Some u
                         /\ convert_row to_Mt_CO2 u (snd (g a)) = inr row
                         /\ res !! i = Some (fst (g a), row)
  | inl e =>
      e = DimensionalityError
      /\ exists a u, a ∈ l /\ f a = Some u /\ to_Mt_CO2 u = None /\ snd (g a) <> []
  end.
Proof.
  induction l as [|a l IH]; intros H.
  - cbn. split; [reflexivity|]. intros i a Hi. discriminate.
  - destruct (H a ltac:(left)) as [u Hu].
    specialize (IH (fun a' Ha' => H a' ltac:(now right))).
    cbn. rewrite Hu. cbn [convert_rows].
    destruct (convert_row to_Mt_CO2 u (snd (g a))) as [e|row] eqn:Hc.
    + apply convert_row_inl in Hc as (-> & Hn & Hne). split; [reflexivity|].
      exists a, u. split; [left|]. now repeat split.
    + destruct (convert_rows to_Mt_CO2 (omap f l) (map g l)) as [e|res].
      * destruct IH as [-> (a' & u' & Hin & Hf & Hn)]. split; [reflexivity|].
        exists a', u'. split; [now right|]. exact (conj Hf Hn).
      * destruct IH as [Hlen IH]. split; [cbn; now rewrite Hlen|].
        intros [|i] a' Hi.
        -- cbn in Hi. injection Hi as <-. exists u, row. now repeat split.
        -- cbn in Hi. exact (IH i a' Hi).
Qed.

Lemma existsb_map {A B} (f : A -> B) (h : B -> bool) (l : list A) :
  existsb h (map f l) = existsb (fun a => h (f a)) l.
Proof. induction l as [|a l IH]; [reflexivity|]. cbn. now rewrite IH. Qed.

(** The call, once every intensity row has a production row. *)
Lemma cumulative_emissions_unfold ei prod :
  (forall k, k ∈ pint_index ei -> is_Some (row_at prod k)) ->
  _get_cumulative_emissions unit_mul to_Mt_CO2 ei prod
  = if existsb (fun e : RowKey * (Unit * list Mag) =>
                  existsb mag_isnan
                    (product_row (pint_columns ei) (snd (snd e)) (pint_columns prod)
                       (row_of (magnitudes prod) (fst e))
                       (union_years (pint_columns ei) (pint_columns prod))))
               (pint_rows ei)
    then inl AssertionError
    else match convert_rows to_Mt_CO2 (product_units unit_mul ei prod)
                 (map (fun e : RowKey * (Unit * list Mag) =>
                         (fst e,
                          cumsum_row
                            (product_row (pint_columns ei) (snd (snd e)) (pint_columns prod)
                               (row_of (magnitudes prod) (fst e))
                               (union_years (pint_columns ei) (pint_columns prod)))))
                      (pint_rows ei)) with
         | inl e => inl e
         | inr c => inr (mkDF (union_years (pint_columns ei) (pint_columns prod)) c)
         end.
Proof.
  intros Hrows. unfold _get_cumulative_emissions, projected_emissions.
  rewrite select_rows_total.
  2:{ intros k Hk. rewrite loc_row_magnitudes.
      destruct (Hrows k) as [ur Hur]; [|rewrite Hur; cbn; eauto].
      unfold index, magnitudes in Hk. cbn [rows] in Hk. rewrite map_map in Hk.
      exact Hk. }
  unfold index. rewrite zip_with_map_fst, map_map.
  unfold isna_any, cumsum. cbn [rows columns fst snd].
  change (columns (magnitudes ei)) with (pint_columns ei).
  change (columns (magnitudes prod)) with (pint_columns prod).
  change (rows (magnitudes ei))
    with (map (fun r : RowKey * (Unit * list Mag) => (fst r, snd (snd r))) (pint_rows ei)).
  rewrite !map_map, !existsb_map. cbn [fst snd].
  reflexivity.
Qed.

Lemma cumulative_emissions_key_error ei prod k :
  k ∈ pint_index ei -> row_at prod k = None ->
  _get_cumulative_emissions unit_mul to_Mt_CO2 ei prod = inl KeyError.
Proof.
  intros Hk Hnone. unfold _get_cumulative_emissions, projected_emissions.
  rewrite (select_rows_missing _ _ k); [reflexivity| |].
  - unfold index, magnitudes. cbn [rows]. now rewrite map_map.
  - now rewrite loc_row_magnitudes, Hnone.
Qed.

Lemma rows_covered_dec ei prod :
  (forall k, k ∈ pint_index ei -> is_Some (row_at prod k))
  \/ exists k, k ∈ pint_index ei /\ row_at prod k = None.
Proof.
  induction (pint_index ei) as [|k ks IH].
  - left. intros k Hk. inversion Hk.
  - destruct (row_at prod k) as [ur|] eqn:Hk.
    + destruct IH as [IH|(k' & Hin & Hn)].
      * left. intros k' Hk'. apply elem_of_cons in Hk' as [->|Hk']; [eauto|now apply IH].
      * right. exists k'. split; [now right|exact Hn].
    + right. exists k. split; [left|exact Hk].
Qed.

Lemma product_units_omap ei prod :
  product_units unit_mul ei prod
  = omap (fun e : RowKey * (Unit * list Mag) =>
            unit_mul (fst (snd e)) <$> unit_of prod (fst e)) (pint_rows ei).
Proof. reflexivity. Qed.

(** What a call that returns has computed. *)
Lemma cumulative_emissions_inr ei prod res :
  _get_cumulative_emissions unit_mul to_Mt_CO2 ei prod = inr res ->
  columns res = union_years (pint_columns ei) (pint_columns prod)
  /\ length (rows res) = length (pint_rows ei)
  /\ forall i k u r,
      pint_rows ei !! i = Some (k, (u, r)) ->
      exists pu p crow,
        row_at prod k = Some (pu, p)
        /\ existsb mag_isnan
             (product_row (pint_columns ei) r (pint_columns prod) p (columns res)) = false
        /\ convert_row to_Mt_CO2 (unit_mul u pu)
             (cumsum_row (product_row (pint_columns ei) r (pint_columns prod)
                                      p (columns res)))
           = inr crow
        /\ rows res !! i = Some (k, crow).
Proof.
  intros H.
  destruct (rows_covered_dec ei prod) as [Hcov|(k & Hk & Hnone)].
  2:{ rewrite (cumulative_emissions_key_error ei prod k Hk Hnone) in H. discriminate. }
  rewrite (cumulative_emissions_unfold ei prod Hcov) in H.
  destruct (existsb _ (pint_rows ei)) eqn:Hna; [discriminate|].
  rewrite product_units_omap in H.
  pose proof (convert_rows_omap
                (fun e : RowKey * (Unit * list Mag) =>
                   unit_mul (fst (snd e)) <$> unit_of prod (fst e))
                (fun e : RowKey * (Unit * list Mag) =>
                   (fst e,
                    cumsum_row
                      (product_row (pint_columns ei) (snd (snd e)) (pint_columns prod)
                         (row_of (magnitudes prod) (fst e))
                         (union_years (pint_columns ei) (pint_columns prod)))))
                (pint_rows ei)) as Hconv.
  destruct (convert_rows _ _ _) as [e|c]; [discriminate|].
  injection H as <-. cbn [columns rows].
  destruct Hconv as [Hlen Hconv].
  { intros [k [u r]] Hin. cbn.
    destruct (Hcov k) as [ur Hur].
    - apply list_elem_of_fmap. exists (k, (u, r)). now split.
    - rewrite unit_of_row_at, Hur. cbn. eauto. }
  split; [reflexivity|]. split; [exact Hlen|].
  intros i k u r Hi.
  destruct (Hconv i _ Hi) as (u' & crow & Hu' & Hc' & Hres). cbn [fst snd] in *.
  rewrite unit_of_row_at in Hu'.
  destruct (row_at prod k) as [[pu p]|] eqn:Hrow; [|discriminate].
  cbn in Hu'. injection Hu' as <-.
  assert (Hp : row_of (magnitudes prod) k = p).
  { unfold row_of. now rewrite loc_row_magnitudes, Hrow. }
  rewrite Hp in Hc'.
  exists pu, p, crow. repeat split; auto.
  apply not_true_iff_false. intros Hn.
  apply not_true_iff_false in Hna. apply Hna.
  apply existsb_exists. exists (k, (u, r)). split.
  - apply list_elem_of_In. eapply list_elem_of_lookup_2, Hi.
  - cbn [fst snd]. now rewrite Hp.
Qed.

(** When a call returns. *)
Lemma cumulative_emissions_returns ei prod :
  (forall k u r, (k, (u, r)) ∈ pint_rows ei ->
     exists pu p,
       row_at prod k = Some (pu, p) /\ is_Some (to_Mt_CO2 (unit_mul u pu))
       /\ existsb mag_isnan
            (product_row (pint_columns ei) r (pint_columns prod) p
               (union_years (pint_columns ei) (pint_columns prod))) = false) ->
  exists res, _get_cumulative_emissions unit_mul to_Mt_CO2 ei prod = inr res.
Proof.
  intros H.
  assert (Hcov : forall k, k ∈ pint_index ei -> is_Some (row_at prod k)).
  { intros k Hk. apply list_elem_of_fmap in Hk as ([k' [u r]] & -> & Hin).
    destruct (H _ _ _ Hin) as (pu & p & Hrow & _). cbn. eauto. }
  rewrite (cumulative_emissions_unfold ei prod Hcov).
  destruct (existsb _ (pint_rows ei)) eqn:Hna.
  - exfalso. apply existsb_exists in Hna as ([k [u r]] & Hin & Hn).
    apply list_elem_of_In in Hin.
    destruct (H _ _ _ Hin) as (pu & p & Hrow & _ & Hfin).
    cbn [fst snd] in Hn. unfold row_of in Hn.
    rewrite loc_row_magnitudes, Hrow in Hn. cbn in Hn. congruence.
  - rewrite product_units_omap.
    pose proof (convert_rows_omap
                  (fun e : RowKey * (Unit * list Mag) =>
                     unit_mul (fst (snd e)) <$> unit_of prod (fst e))
                  (fun e : RowKey * (Unit * list Mag) =>
                     (fst e,
                      cumsum_row
                        (product_row (pint_columns ei) (snd (snd e)) (pint_columns prod)
                           (row_of (magnitudes prod) (fst e))
                           (union_years (pint_columns ei) (pint_columns prod)))))
                  (pint_rows ei)) as Hconv.
    destruct (convert_rows _ _ _) as [e|c]; [|eauto].
    exfalso. destruct Hconv as [_ ([k [u r]] & u' & Hin & Hu' & Hn & _)].
    + intros [k [u r]] Hin. cbn.
      destruct (H _ _ _ Hin) as (pu & p & Hrow & _).
      rewrite unit_of_row_at, Hrow. cbn. eauto.
    + destruct (H _ _ _ Hin) as (pu & p & Hrow & [c Hc] & _).
      cbn in Hu'. rewrite unit_of_row_at, Hrow in Hu'. cbn in Hu'.
      injection Hu' as <-. congruence.
Qed.
End CumulativeProperties.

Section CumulativeClaims.
Context {Unit : Type}.
Variable unit_mul : Unit -> Unit -> Unit.
Variable to_Mt_CO2 : Unit -> option Q.
Implicit Types ei prod : PintFrame Unit.

Lemma product_at_in_row ei_cols r p_cols p years y :
  y ∈ years ->
  product_at ei_cols r p_cols p y = None ->
  existsb mag_isnan (product_row ei_cols r p_cols p years) = true.
Proof.
  intros Hy Hn. apply existsb_exists. exists (product_at ei_cols r p_cols p y).
  split; [|now rewrite Hn].
  apply in_map_iff. exists y. split; [reflexivity|now apply list_elem_of_In].
Qed.

Lemma product_row_no_nan ei_cols r p_cols p years y :
  existsb mag_isnan (product_row ei_cols r p_cols p years) = false ->
  y ∈ years -> product_at ei_cols r p_cols p y <> None.
Proof.
  intros Hf Hy Hn. rewrite (product_at_in_row _ _ _ _ _ y Hy Hn) in Hf. discriminate.
Qed.

Lemma product_row_all ei_cols r p_cols p years :
  (forall y, y ∈ years -> product_at ei_cols r p_cols p y <> None) ->
  existsb mag_isnan (product_row ei_cols r p_cols p years) = false.
Proof.
  intros H. apply not_true_iff_false. intros Hn.
  apply existsb_exists in Hn as (v & Hv & Hnan).
  apply in_map_iff in Hv as (y & <- & Hy). apply list_elem_of_In in Hy.
  apply (H y Hy). unfold product_at.
  now destruct (mag_mul _ _).
Qed.

Lemma existsb_false_elem (row : list Mag) v :
  existsb mag_isnan row = false -> v ∈ row -> v <> None.
Proof.
  intros Hf Hv ->. apply not_true_iff_false in Hf. apply Hf.
  apply existsb_exists. exists None. split; [now apply list_elem_of_In|reflexivity].
Qed.

(** C7 (as amended).  [_get_cumulative_emissions] raises whenever a
    product of intensity and production is missing, and a table it returns
    comes from products without a missing value and holds none; it
    returns whenever the production table has a row for each intensity
    row, no product is missing and the unit of each product row is a mass
    of CO2. *)
Theorem cumulative_emissions_fails_on_missing ei prod :
  (forall k u r pu p y,
      (k, (u, r)) ∈ pint_rows ei -> row_at prod k = Some (pu, p) ->
      y ∈ pint_columns ei \/ y ∈ pint_columns prod ->
      product_at (pint_columns ei) r (pint_columns prod) p y = None ->
      _get_cumulative_emissions unit_mul to_Mt_CO2 ei prod = inl AssertionError
      \/ _get_cumulative_emissions unit_mul to_Mt_CO2 ei prod = inl KeyError)
  /\ (forall res,
         _get_cumulative_emissions unit_mul to_Mt_CO2 ei prod = inr res ->
         (forall k u r pu p y,
             (k, (u, r)) ∈ pint_rows ei -> row_at prod k = Some (pu, p) ->
             y ∈ pint_columns ei \/ y ∈ pint_columns prod ->
             product_at (pint_columns ei) r (pint_columns prod) p y <> None)
         /\ (forall k row v, (k, row) ∈ rows res -> v ∈ row -> v <> None))
  /\ ((forall k, k ∈ pint_index ei -> k ∈ pint_index prod) ->
      (forall k u r pu p y,
          (k, (u, r)) ∈ pint_rows ei -> row_at prod k = Some (pu, p) ->
          y ∈ pint_columns ei \/ y ∈ pint_columns prod ->
          product_at (pint_columns ei) r (pint_columns prod) p y <> None) ->
      (forall k u r pu p,
          (k, (u, r)) ∈ pint_rows ei -> row_at prod k = Some (pu, p) ->
          is_Some (to_Mt_CO2 (unit_mul u pu))) ->
      exists res, _get_cumulative_emissions unit_mul to_Mt_CO2 ei prod = inr res).
Proof.
  split; [|split].
  - intros k u r pu p y Hin Hrow Hy Hnan.
    destruct (rows_covered_dec ei prod) as [Hcov|(k' & Hk' & Hnone)].
    + left. rewrite (cumulative_emissions_unfold unit_mul to_Mt_CO2 ei prod Hcov).
      replace (existsb _ (pint_rows ei)) with true; [reflexivity|].
      symmetry. apply existsb_exists. exists (k, (u, r)).
      split; [now apply list_elem_of_In|]. cbn [fst snd].
      unfold row_of. rewrite loc_row_magnitudes, Hrow. cbn.
      apply (product_at_in_row _ _ _ _ _ y); [|exact Hnan].
      now apply union_years_elem.
    + right. exact (cumulative_emissions_key_error unit_mul to_Mt_CO2 ei prod k' Hk' Hnone).
  - intros res H.
    destruct (cumulative_emissions_inr unit_mul to_Mt_CO2 ei prod res H)
      as (Hcols & Hlen & Hrows).
    split.
    + intros k u r pu p y Hin Hrow Hy.
      apply list_elem_of_lookup_1 in Hin as [i Hi].
      destruct (Hrows i k u r Hi) as (pu' & p' & crow & Hrow' & Hfin & _).
      rewrite Hrow in Hrow'. injection Hrow' as <- <-.
      apply (product_row_no_nan _ _ _ _ _ y Hfin).
      rewrite Hcols. now apply union_years_elem.
    + intros k row v Hin Hv.
      apply list_elem_of_lookup_1 in Hin as [i Hi].
      assert (Hlt : (i < length (pint_rows ei))%nat).
      { rewrite <- Hlen. eapply lookup_lt_Some, Hi. }
      destruct (lookup_lt_is_Some_2 _ _ Hlt) as [[k' [u r]] He].
      destruct (Hrows i k' u r He) as (pu & p & crow & _ & Hfin & Hconv & Hres).
      rewrite Hi in Hres. injection Hres as -> ->.
      apply (convert_row_inr to_Mt_CO2) in Hconv as [[_ ->]|(c & _ & ->)];
        [inversion Hv|].
      apply list_elem_of_fmap in Hv as (w & -> & Hw).
      apply cumsum_row_no_nan in Hfin.
      pose proof (existsb_false_elem _ w Hfin Hw) as Hne.
      destruct w; [discriminate|congruence].
  - intros Hcov Hfin Hunits.
    apply (cumulative_emissions_returns unit_mul to_Mt_CO2 ei prod).
    intros k u r Hin.
    destruct (row_at_is_Some prod k) as [[pu p] Hrow].
    { apply Hcov. apply list_elem_of_fmap. exists (k, (u, r)). now split. }
    exists pu, p. split; [exact Hrow|]. split; [now apply (Hunits k u r pu p)|].
    apply product_row_all. intros y Hy.
    apply (Hfin k u r pu p y Hin Hrow). now apply union_years_elem.
Qed.
End CumulativeClaims.

Lemma cumulative_emissions_fails_on_missing_witness :
  exists res,
    _get_cumulative_emissions simple_mul simple_to_Mt_CO2
                              (ex_ei t_CO2_per_GJ) (ex_production GJ) = inr res.
Proof.
  apply (proj2 (proj2 (cumulative_emissions_fails_on_missing
                         simple_mul simple_to_Mt_CO2
                         (ex_ei t_CO2_per_GJ) (ex_production GJ)))).
  - intros k Hk. exact Hk.
  - intros k u r pu p y Hin Hrow Hy.
    assert (Hy' : y = 0 \/ y = 1).
    { destruct Hy as [Hy|Hy]; cbn in Hy;
        repeat (apply elem_of_cons in Hy as [->|Hy]; [tauto|]); inversion Hy. }
    cbn in Hin.
    apply elem_of_cons in Hin as [Hin|Hin];
      [|apply elem_of_cons in Hin as [Hin|Hin]; [|inversion Hin]];
      injection Hin as -> -> ->; cbn in Hrow; injection Hrow as <- <-;
      destruct Hy' as [-> | ->]; discriminate.
  - intros k u r pu p Hin Hrow.
    cbn in Hin.
    apply elem_of_cons in Hin as [Hin|Hin];
      [|apply elem_of_cons in Hin as [Hin|Hin]; [|inversion Hin]];
      injection Hin as -> -> ->; cbn in Hrow; injection Hrow as <- <-;
      cbn; eauto.
Defined.

(** Counterexample to C7 as stated: the product of the two tables has no
    missing value, and the call does not return: the product of t CO2/GJ
    and pieces is no mass of CO2, and the conversion to Mt CO2 raises. *)
Lemma cumulative_emissions_unit_mismatch_raises :
  projected_emissions (magnitudes ex_ei_short) (magnitudes ex_production_pieces)
  = Some (mkDF [2020] [(row_A, [q 2])])
  /\ isna_any (mkDF [2020] [(row_A, [q 2])]) = false
  /\ _get_cumulative_emissions simple_mul simple_to_Mt_CO2
                               ex_ei_short ex_production_pieces
     = inl DimensionalityError.
Proof. repeat split; reflexivity. Qed.

Lemma is_value_scale (c : Q) (w : Mag) (x : Q) :
  is_value w x -> is_value (mag_mul (Some c) w) (c * x)%Q.
Proof.
  unfold is_value, mag_equiv. destruct w as [w|]; [|contradiction].
  cbn. intros ->. apply Qred_correct.
Qed.

(** C2 (as amended).  For an intensity table and a production table with
    the same year columns, finite values, a production row for each
    intensity row and products that are masses of CO2,
    [_get_cumulative_emissions] returns a table with the years and, in
    their order, the rows of the intensity table; each cell is the sum of
    intensity times production over the years up to its own, converted
    to Mt CO2.  For intensity [[1,2],[3,4]] and production [[2,4],[6,8]]
    the rows are [2,10] and [18,50], with final-year values [10,50], in
    the unit of the product. *)
Theorem cumulative_emissions_rows_and_years :
  (forall (Unit : Type) (unit_mul : Unit -> Unit -> Unit) (to_Mt_CO2 : Unit -> option Q)
          (ei prod : PintFrame Unit),
      pint_columns ei = pint_columns prod -> NoDup (pint_columns ei) ->
      (forall k u r, (k, (u, r)) ∈ pint_rows ei ->
         finite_row (pint_columns ei) r
         /\ exists pu p, row_at prod k = Some (pu, p)
                         /\ finite_row (pint_columns ei) p
                         /\ is_Some (to_Mt_CO2 (unit_mul u pu))) ->
      exists res,
        _get_cumulative_emissions unit_mul to_Mt_CO2 ei prod = inr res
        /\ columns res = pint_columns ei
        /\ index res = pint_index ei
        /\ forall i k u r pu p c,
            pint_rows ei !! i = Some (k, (u, r)) ->
            row_at prod k = Some (pu, p) ->
            to_Mt_CO2 (unit_mul u pu) = Some c ->
            exists crow,
              rows res !! i = Some (k, crow)
              /\ length crow = length (pint_columns ei)
              /\ forall j v, crow !! j = Some v ->
                             is_value v (c * running_sum r p j))
  /\ (forall (Unit : Type) (unit_mul : Unit -> Unit -> Unit)
             (to_Mt_CO2 : Unit -> option Q) (ux uy : Unit) (c : Q),
         to_Mt_CO2 (unit_mul ux uy) = Some c ->
         _get_cumulative_emissions unit_mul to_Mt_CO2 (ex_ei ux) (ex_production uy)
         = inr (mkDF [0; 1] [(row_0, map (mag_mul (Some c)) [q 2; q 10]);
                             (row_1, map (mag_mul (Some c)) [q 18; q 50])])
         /\ last_column (mkDF [0; 1] [(row_0, map (mag_mul (Some c)) [q 2; q 10]);
                                      (row_1, map (mag_mul (Some c)) [q 18; q 50])])
            = [(row_0, mag_mul (Some c) (q 10)); (row_1, mag_mul (Some c) (q 50))]).
Proof.
  split.
  - intros Unit unit_mul to_Mt_CO2 ei prod Hcols Hnd Hrows.
    destruct (cumulative_emissions_returns unit_mul to_Mt_CO2 ei prod) as [res Hres].
    { intros k u r Hin. destruct (Hrows k u r Hin) as (Hr & pu & p & Hrow & Hp & Hu).
      exists pu, p. split; [exact Hrow|]. split; [exact Hu|].
      rewrite <- Hcols, union_years_same. now apply product_row_finite. }
    exists res. split; [exact Hres|].
    destruct (cumulative_emissions_inr unit_mul to_Mt_CO2 ei prod res Hres)
      as (Hc & Hlen & Hinr).
    rewrite <- Hcols, union_years_same in Hc.
    split; [exact Hc|]. split.
    + unfold index, pint_index. apply list_eq. intros i.
      rewrite !list_lookup_fmap.
      destruct (pint_rows ei !! i) as [[k [u r]]|] eqn:Hi.
      * destruct (Hinr i k u r Hi) as (pu & p & crow & _ & _ & _ & Hri).
        now rewrite Hri.
      * apply lookup_ge_None in Hi. rewrite <- Hlen in Hi.
        apply lookup_ge_None in Hi. now rewrite Hi.
    + intros i k u r pu p c Hi Hrow Hu.
      destruct (Hinr i k u r Hi) as (pu' & p' & crow & Hrow' & _ & Hconv & Hri).
      rewrite Hrow in Hrow'. injection Hrow' as <- <-.
      rewrite Hc, <- Hcols in Hconv.
      rewrite (convert_row_Some to_Mt_CO2 _ c _ Hu) in Hconv. injection Hconv as <-.
      eexists. split; [exact Hri|].
      split; [now rewrite length_map, cumsum_row_length, product_row_length|].
      intros j v Hv. rewrite list_lookup_fmap in Hv.
      destruct (cumsum_row _ !! j) as [w|] eqn:Hw; [|discriminate].
      cbn in Hv. injection Hv as <-.
      apply is_value_scale. unfold running_sum.
      refine (cumsum_row_sum _ (products r p) j w _ Hw).
      destruct (Hrows k u r) as (Hr & pu' & p' & Hrow' & Hp & _).
      { eapply list_elem_of_lookup_2, Hi. }
      rewrite Hrow in Hrow'. injection Hrow' as <- <-.
      now apply product_row_values.
  - intros Unit unit_mul to_Mt_CO2 ux uy c Hu.
    split; [|reflexivity].
    assert (Hp : projected_emissions (magnitudes (ex_ei ux)) (magnitudes (ex_production uy))
                 = Some (mkDF [0; 1] [(row_0, [q 2; q 8]); (row_1, [q 18; q 32])]))
      by (vm_compute; reflexivity).
    assert (Hus : product_units unit_mul (ex_ei ux) (ex_production uy)
                  = [unit_mul ux uy; unit_mul ux uy])
      by (vm_compute; reflexivity).
    unfold _get_cumulative_emissions. rewrite Hp, Hus.
    cbn [isna_any rows existsb mag_isnan q snd orb cumsum columns map fst convert_rows].
    unfold convert_row. rewrite Hu. reflexivity.
Qed.

Lemma cumulative_emissions_rows_and_years_witness :
  (exists res,
      _get_cumulative_emissions simple_mul simple_to_Mt_CO2
                                (ex_ei Mt_CO2_per_GJ) (ex_production GJ) = inr res
      /\ columns res = [0; 1] /\ index res = [row_0; row_1])
  /\ _get_cumulative_emissions simple_mul simple_to_Mt_CO2
                               (ex_ei Mt_CO2_per_GJ) (ex_production GJ)
     = inr (mkDF [0; 1] [(row_0, [q 2; q 10]); (row_1, [q 18; q 50])])
  /\ last_column (mkDF [0; 1] [(row_0, [q 2; q 10]); (row_1, [q 18; q 50])])
     = [(row_0, q 10); (row_1, q 50)].
Proof.
  split.
  - destruct (proj1 cumulative_emissions_rows_and_years SimpleUnit simple_mul
                    simple_to_Mt_CO2 (ex_ei Mt_CO2_per_GJ) (ex_production GJ))
      as (res & Hres & Hcols & Hindex & _).
    + reflexivity.
    + apply (bool_decide_eq_true_1 (NoDup [0; 1])). reflexivity.
    + intros k u r Hin. cbn in Hin.
      apply elem_of_cons in Hin as [Hin|Hin];
        [|apply elem_of_cons in Hin as [Hin|Hin]; [|inversion Hin]];
        injection Hin as -> -> ->;
        (split;
         [split; [reflexivity|]; intros v Hv;
          repeat (apply elem_of_cons in Hv as [->|Hv]; [discriminate|]); inversion Hv
         |eexists _, _; split; [reflexivity|]; split; [|cbn; eauto];
          split; [reflexivity|]; intros v Hv;
          repeat (apply elem_of_cons in Hv as [->|Hv]; [discriminate|]); inversion Hv]).
    + exists res. repeat split; assumption.
  - exact (proj2 cumulative_emissions_rows_and_years SimpleUnit simple_mul
                 simple_to_Mt_CO2 Mt_CO2_per_GJ GJ 1%Q eq_refl).
Defined.

(** Counterexample to C2 as stated: the production table has the year
    2021 that the intensity table lacks.  The year is not ignored: its
    product is missing and the call raises, where the claim has the
    running sum [2] over the common year 2020. *)
Lemma cumulative_emissions_extra_production_year_raises :
  pint_columns ex_ei_short = [2020]
  /\ pint_columns ex_production_long = [2020; 2021]
  /\ projected_emissions (magnitudes ex_ei_short) (magnitudes ex_production_long)
     = Some (mkDF [2020; 2021] [(row_A, [q 2; None])])
  /\ _get_cumulative_emissions simple_mul simple_to_Mt_CO2
                               ex_ei_short ex_production_long
     = inl AssertionError.
Proof. repeat split; reflexivity. Qed.
(** ** Scope resolution *)

Lemma pick_scope_not_single scopes :
  length scopes <> 1%nat -> pick_scope scopes = first_priority_scope scopes.
Proof. destruct scopes as [|s [|s' l]]; cbn; intros H; congruence. Qed.

Lemma resolve_company_assigns ei_df st c region' scopes s :
  benchmark_region ei_df (sector c) (region c) = Some region' ->
  loc_scopes ei_df (sector c) region' = Some scopes ->
  pick_scope scopes = Some s ->
  company_scope (resolve_company ei_df st c) !! company_id c = Some s.
Proof.
  intros Hr Hs Hp. unfold resolve_company. rewrite Hr, Hs, Hp. cbn.
  apply lookup_insert_eq.
Qed.

Lemma bind_inr {A B} (m : M A) (k : A -> M B) l b :
  bind m k = (l, inr b) ->
  exists l1 a l2, m = (l1, inr a) /\ k a = (l2, inr b) /\ l = l1 ++ l2.
Proof.
  destruct m as [l1 [e|a]]; cbn; [discriminate|].
  destruct (k a) as [l2 r] eqn:Hk. intros H. injection H as <- ->.
  eauto 6.
Qed.



Lemma benchmark_region_covered ei_df sec reg region' :
  benchmark_region ei_df sec reg = Some region' ->
  is_Some (loc_scopes ei_df sec region') /\ (region' = reg \/ region' = "Global"%string).
Proof.
  unfold benchmark_region.
  destruct (loc_scopes ei_df sec reg) eqn:H1.
  - intros H. injection H as <-. rewrite H1. eauto.
  - destruct (loc_scopes ei_df sec "Global") eqn:H2; [|discriminate].
    intros H. injection H as <-. rewrite H2. eauto.
Qed.

Lemma resolve_company_step ei_df st c :
  (exists region' scopes s,
      benchmark_region ei_df (sector c) (region c) = Some region'
      /\ loc_scopes ei_df (sector c) region' = Some scopes
      /\ pick_scope scopes = Some s
      /\ resolve_company ei_df st c
         = mkS (<[company_id c := s]> (company_scope st)) (missing_company_scopes st))
  \/ (is_Some (company_scope st !! company_id c) /\ resolve_company ei_df st c = st)
  \/ (company_scope st !! company_id c = None
      /\ resolve_company ei_df st c
         = mkS (company_scope st) (missing_company_scopes st ++ [company_id c]))
  \/ (benchmark_region ei_df (sector c) (region c) = None
      /\ resolve_company ei_df st c
         = mkS (company_scope st) (missing_company_scopes st ++ [company_id c])).
Proof.
  unfold resolve_company.
  destruct (benchmark_region ei_df (sector c) (region c)) as [region'|] eqn:Hr;
    [|right; right; right; auto].
  destruct (benchmark_region_covered _ _ _ _ Hr) as [[scopes Hs] _]. rewrite Hs.
  destruct (pick_scope scopes) as [s|] eqn:Hp; [left; eauto 10|].
  case_bool_decide as Hd.
  - right; left. split; [exact Hd|reflexivity].
  - right; right; left. split; [|reflexivity].
    destruct (company_scope st !! company_id c) eqn:Hl; [|reflexivity].
    exfalso. apply Hd. eauto.
Qed.

Lemma resolve_company_fresh ei_df st c id :
  company_id c <> id ->
  company_scope (resolve_company ei_df st c) !! id = company_scope st !! id
  /\ (id ∈ missing_company_scopes (resolve_company ei_df st c) ->
      id ∈ missing_company_scopes st).
Proof.
  intros Hid.
  destruct (resolve_company_step ei_df st c)
    as [(region' & scopes & s' & Hr & Hs & Hp & Heq)
       |[[_ Heq]|[[_ Heq]|[_ Heq]]]]; rewrite Heq; cbn; split; auto;
    try (now rewrite lookup_insert_ne);
    intros H; apply elem_of_app in H as [H|H]; auto;
    apply list_elem_of_singleton in H; congruence.
Qed.

(** The loop leaves the entry of an id alone after the last company of
    that id. *)
Lemma resolve_rest_fresh ei_df cs st id :
  (forall c, c ∈ cs -> company_id c <> id) ->
  company_scope (fold_left (resolve_company ei_df) cs st) !! id = company_scope st !! id.
Proof.
  revert st. induction cs as [|c cs IH]; intros st H; [reflexivity|].
  cbn. rewrite IH by (intros c' Hc'; apply H; now right).
  apply resolve_company_fresh. apply H. left.
Qed.

Lemma resolve_scopes_assigns ei_df pre c post st region' scopes s :
  (forall c', c' ∈ post -> company_id c' <> company_id c) ->
  benchmark_region ei_df (sector c) (region c) = Some region' ->
  loc_scopes ei_df (sector c) region' = Some scopes ->
  pick_scope scopes = Some s ->
  company_scope (fold_left (resolve_company ei_df) (pre ++ c :: post) st)
    !! company_id c = Some s.
Proof.
  intros Hpost Hr Hs Hp. rewrite fold_left_app. cbn [fold_left].
  rewrite resolve_rest_fresh by exact Hpost.
  now apply (resolve_company_assigns ei_df _ c region' scopes).
Qed.

(** The lookups of the loop, in terms of the published scopes. *)
Lemma loc_scopes_published ei_df sec reg :
  loc_scopes ei_df sec reg
  = match published ei_df sec reg with [] => None | l => Some l end.
Proof.
  unfold loc_scopes, published.
  assert (Hf : forall l : list (string * string * EScope.t),
             List.filter (fun r => bool_decide (fst (fst r) = sec)
                                   && bool_decide (snd (fst r) = reg)) l
             = List.filter (fun r => bool_decide (fst (fst r) = sec /\ snd (fst r) = reg)) l).
  { intros l. apply filter_ext. intros r.
    destruct (decide (fst (fst r) = sec)) as [H1|H1],
             (decide (snd (fst r) = reg)) as [H2|H2].
    - rewrite !bool_decide_eq_true_2; auto.
    - rewrite (bool_decide_eq_false_2 (snd (fst r) = reg)) by exact H2.
      rewrite andb_false_r. symmetry. apply bool_decide_eq_false_2. tauto.
    - rewrite (bool_decide_eq_false_2 (fst (fst r) = sec)) by exact H1.
      symmetry. apply bool_decide_eq_false_2. tauto.
    - rewrite (bool_decide_eq_false_2 (fst (fst r) = sec)) by exact H1.
      symmetry. apply bool_decide_eq_false_2. tauto. }
  rewrite Hf. now destruct (List.filter _ ei_df).
Qed.

Lemma published_for_lookup ei_df c :
  published_for ei_df c <> [] ->
  benchmark_region ei_df (sector c) (region c)
  = Some (region_after_fallback ei_df (sector c) (region c))
  /\ loc_scopes ei_df (sector c) (region_after_fallback ei_df (sector c) (region c))
     = Some (published_for ei_df c).
Proof.
  unfold published_for, region_after_fallback, benchmark_region.
  rewrite !loc_scopes_published.
  case_bool_decide as Hreg.
  - rewrite Hreg. intros Hne.
    destruct (published ei_df (sector c) "Global"); [congruence|]. now split.
  - intros _.
    destruct (published ei_df (sector c) (region c)); [congruence|]. now split.
Qed.

Lemma first_priority_scope_spec scopes :
  (EScope.S1S2S3 ∈ scopes -> first_priority_scope scopes = Some EScope.S1S2S3)
  /\ (EScope.S1S2S3 ∉ scopes -> EScope.S1S2 ∈ scopes ->
      first_priority_scope scopes = Some EScope.S1S2)
  /\ (EScope.S1S2S3 ∉ scopes -> EScope.S1S2 ∉ scopes -> EScope.S1 ∈ scopes ->
      first_priority_scope scopes = Some EScope.S1)
  /\ (EScope.S1S2S3 ∉ scopes -> EScope.S1S2 ∉ scopes -> EScope.S1 ∉ scopes ->
      EScope.S3 ∈ scopes -> first_priority_scope scopes = Some EScope.S3).
Proof.
  unfold first_priority_scope, scope_priority. cbn [List.find].
  repeat split; intros;
    repeat (first [rewrite bool_decide_eq_true_2 by assumption
                  |rewrite bool_decide_eq_false_2 by assumption]);
    reflexivity.
Qed.

Section InitProperties.
Variable emission_add : Realization -> Realization -> Exn + Realization.
Variable ei_add : Realization -> Realization -> Exn + Realization.
Variable projection_add : Realization -> Realization -> Exn + Realization.
Variable series_raises : Series -> Series -> bool.
Variable breakpoint : M unit.
Variable zero_division : Mag -> Exn + Mag.
Variable estimate_missing_data : option (ICompanyData -> M ICompanyData).
Variable _calculate_target_projections : list ICompanyData -> M (list ICompanyData).

Let init := __init__ emission_add ei_add projection_add series_raises
                     breakpoint zero_division
                     estimate_missing_data _calculate_target_projections.

Lemma init_inr bm cs l w :
  init bm cs = (l, inr w) ->
  benchmark_assertion (_EI_benchmarks bm) = true
  /\ warehouse_scope w = company_scope (resolve_scopes (_EI_df bm) (companies w)).
Proof.
  subst init. unfold __init__. intros H.
  apply bind_inr in H as (l1 & cs2 & l2 & _ & H & _).
  destruct (benchmark_assertion (_EI_benchmarks bm)); [|discriminate].
  cbn [negb] in H.
  apply bind_inr in H as (l3 & cs3 & l4 & _ & H & _).
  apply bind_inr in H as (l5 & [] & l6 & _ & H & _).
  injection H as _ <-. split; reflexivity.
Qed.

(** C8.  In the warehouse the constructor returns, a company whose
    sector and region, after the fallback to "Global", the benchmark
    covers has the scope: the single scope published, if there is one
    only; otherwise S1S2S3 if published, else S1S2 if published, else S1,
    else S3.  So the scopes {S1, S1S2, S1S2S3} resolve to S1S2S3.  (The
    scopes are kept by company id: the company is the last of its id.) *)
Theorem scope_resolution_priority
  (bm : IntensityBenchmarkDataProvider) (cs : list ICompanyData)
  (l : list Event) (w : DataWarehouse) (pre : list ICompanyData)
  (c : ICompanyData) (post : list ICompanyData) :
  init bm cs = (l, inr w) ->
  companies w = pre ++ c :: post ->
  (forall c', c' ∈ post -> company_id c' <> company_id c) ->
  published_for (_EI_df bm) c <> [] ->
  (forall s, published_for (_EI_df bm) c = [s] ->
             warehouse_scope w !! company_id c = Some s)
  /\ (length (published_for (_EI_df bm) c) <> 1%nat ->
      (EScope.S1S2S3 ∈ published_for (_EI_df bm) c ->
       warehouse_scope w !! company_id c = Some EScope.S1S2S3)
      /\ (EScope.S1S2S3 ∉ published_for (_EI_df bm) c ->
          EScope.S1S2 ∈ published_for (_EI_df bm) c ->
          warehouse_scope w !! company_id c = Some EScope.S1S2)
      /\ (EScope.S1S2S3 ∉ published_for (_EI_df bm) c ->
          EScope.S1S2 ∉ published_for (_EI_df bm) c ->
          EScope.S1 ∈ published_for (_EI_df bm) c ->
          warehouse_scope w !! company_id c = Some EScope.S1)
      /\ (EScope.S1S2S3 ∉ published_for (_EI_df bm) c ->
          EScope.S1S2 ∉ published_for (_EI_df bm) c ->
          EScope.S1 ∉ published_for (_EI_df bm) c ->
          EScope.S3 ∈ published_for (_EI_df bm) c ->
          warehouse_scope w !! company_id c = Some EScope.S3))
  /\ ((forall s, s ∈ published_for (_EI_df bm) c
                 <-> s ∈ [EScope.S1; EScope.S1S2; EScope.S1S2S3]) ->
      warehouse_scope w !! company_id c = Some EScope.S1S2S3).
Proof.
  intros Hinit Hw Hpost Hcov.
  destruct (init_inr bm cs l w Hinit) as [_ Hscope].
  destruct (published_for_lookup (_EI_df bm) c Hcov) as [Hr Hs].
  assert (Hassign : forall s, pick_scope (published_for (_EI_df bm) c) = Some s ->
                              warehouse_scope w !! company_id c = Some s).
  { intros s Hp. rewrite Hscope, Hw. unfold resolve_scopes.
    exact (resolve_scopes_assigns (_EI_df bm) pre c post (mkS ∅ []) _ _ s
             Hpost Hr Hs Hp). }
  destruct (first_priority_scope_spec (published_for (_EI_df bm) c))
    as (H1 & H2 & H3 & H4).
  split; [|split].
  - intros s Hone. apply Hassign. now rewrite Hone.
  - intros Hlen. rewrite <- (pick_scope_not_single _ Hlen) in H1, H2, H3, H4.
    repeat split; intros; apply Hassign; auto.
  - intros Hset.
    assert (Hlen : length (published_for (_EI_df bm) c) <> 1%nat).
    { destruct (published_for (_EI_df bm) c) as [|s [|s' l']]; cbn; try lia.
      assert (Ha : EScope.S1 ∈ [s]) by (apply Hset; left).
      assert (Hb : EScope.S1S2 ∈ [s]) by (apply Hset; right; left).
      apply list_elem_of_singleton in Ha, Hb. congruence. }
    apply Hassign. rewrite (pick_scope_not_single _ Hlen). apply H1.
    apply Hset. right; right; left.
Qed.

(** C9 (as amended).  With an S1 benchmark and no S1S2 benchmark the
    constructor raises [AssertionError] once the estimate of the missing
    data, run on every company when one is given, and the target
    projections have returned, with their log and nothing more: no company
    is folded, no scope resolved.  An exception of the estimate or of the
    projections is raised instead.  A constructor that returns had an
    S1S2 benchmark, or no S1 benchmark. *)
Theorem init_asserts_S1S2_benchmark
  (bm : IntensityBenchmarkDataProvider) (cs : list ICompanyData) :
  (forall b1,
      Benchmarks.S1 (_EI_benchmarks bm) = Some b1 ->
      Benchmarks.S1S2 (_EI_benchmarks bm) = None ->
      (forall l cs2,
          estimate_missing_data = None ->
          _calculate_target_projections cs = (l, inr cs2) ->
          init bm cs = (l, inl AssertionError))
      /\ (forall f l1 cs1 l2 cs2,
             estimate_missing_data = Some f ->
             estimate_all f cs = (l1, inr cs1) ->
             _calculate_target_projections cs1 = (l2, inr cs2) ->
             init bm cs = (l1 ++ l2, inl AssertionError)))
  /\ (forall l e,
         estimate_missing_data = None ->
         _calculate_target_projections cs = (l, inl e) ->
         init bm cs = (l, inl e))
  /\ (forall f l1 e,
         estimate_missing_data = Some f ->
         estimate_all f cs = (l1, inl e) ->
         init bm cs = (l1, inl e))
  /\ (forall f l1 cs1 l2 e,
         estimate_missing_data = Some f ->
         estimate_all f cs = (l1, inr cs1) ->
         _calculate_target_projections cs1 = (l2, inl e) ->
         init bm cs = (l1 ++ l2, inl e))
  /\ (forall l w,
         init bm cs = (l, inr w) ->
         is_Some (Benchmarks.S1S2 (_EI_benchmarks bm))
         \/ Benchmarks.S1 (_EI_benchmarks bm) = None).
Proof.
  subst init. unfold __init__, prepare_companies. repeat apply conj.
  - intros b1 H1 H12. unfold benchmark_assertion. rewrite H1, H12. split.
    + intros l cs2 -> Hp. cbn. rewrite Hp. cbn. now rewrite app_nil_r.
    + intros f l1 cs1 l2 cs2 -> He Hp. rewrite He. cbn. rewrite Hp. cbn.
      now rewrite app_nil_r.
  - intros l e -> Hp. cbn. now rewrite Hp.
  - intros f l1 e -> He. now rewrite He.
  - intros f l1 cs1 l2 e -> He Hp. rewrite He. cbn. now rewrite Hp.
  - intros l w H. apply bind_inr in H as (l1 & cs2 & l2 & _ & H & _).
    unfold benchmark_assertion in H.
    destruct (Benchmarks.S1S2 (_EI_benchmarks bm)); [left; eauto|].
    destruct (Benchmarks.S1 (_EI_benchmarks bm)); [discriminate|now right].
Qed.

(** C10.  A base-year [ghg_s3] that is present with a NaN magnitude adds
    nothing to [ghg_s1s2] and is cleared all the same. *)
Theorem nan_ghg_s3_is_cleared_without_transfer (c : ICompanyData) :
  ghg_s3 c = Some None ->
  shift_ghg c = ([], inr (ghg_s1s2 c, None))
  /\ forall l c',
      shift_company emission_add ei_add projection_add series_raises
                    breakpoint zero_division c = (l, inr c') ->
      ghg_s1s2 c' = ghg_s1s2 c /\ ghg_s3 c' = None.
Proof.
  intros H3.
  assert (Hg : shift_ghg c = ([], inr (ghg_s1s2 c, None)))
    by (unfold shift_ghg; rewrite H3; reflexivity).
  split; [exact Hg|].
  intros l c' H. unfold shift_company in H. rewrite Hg in H.
  apply bind_inr in H as (l1 & g & l2 & Hret & H & _).
  injection Hret as <- <-.
  apply bind_inr in H as (? & h & ? & _ & H & _).
  apply bind_inr in H as (? & tr & ? & _ & H & _).
  apply bind_inr in H as (? & tg & ? & _ & H & _).
  injection H as <- <-. split; reflexivity.
Qed.
End InitProperties.

Lemma scope_resolution_priority_witness :
  warehouse_scope ex_warehouse !! "C1"%string = Some EScope.S1S2S3.
Proof.
  assert (Hpost : forall c', c' ∈ @nil ICompanyData ->
                             company_id c' <> company_id ex_steel_company).
  { intros c' Hc'. inversion Hc'. }
  assert (Hcov : published_for ex_ei_df ex_steel_company <> []) by discriminate.
  apply (proj2 (proj2 (scope_resolution_priority
                         point_add point_add point_add never_raises
                         breakpoint_disabled float_zero_division None ret
                         (mkProvider ex_benchmarks_S1S2 ex_ei_df) [ex_steel_company]
                         [LogInfoShifting] ex_warehouse [] ex_steel_company []
                         eq_refl eq_refl Hpost Hcov))).
  intros s. reflexivity.
Defined.

Lemma init_asserts_S1S2_benchmark_witness :
  __init__ point_add point_add point_add never_raises
           breakpoint_disabled float_zero_division (Some ex_estimate) ret
           ex_provider_S1_S3 [ex_company_no_s3]
  = ([LogInfoAddedS3 "C8" "Steel" "Global"] ++ [], inl AssertionError).
Proof.
  apply (proj2 (proj1 (init_asserts_S1S2_benchmark
                         point_add point_add point_add never_raises
                         breakpoint_disabled float_zero_division
                         (Some ex_estimate) ret ex_provider_S1_S3 [ex_company_no_s3])
                      (mkB true) eq_refl eq_refl)
               ex_estimate [LogInfoAddedS3 "C8" "Steel" "Global"]
               [ex_company_estimated] [] [ex_company_estimated]);
    reflexivity.
Defined.

(** Counterexample to C9 as stated.  The benchmark defines S1 and not
    S1S2.  The estimate of missing data runs on every company before the
    assertion: for a company without historic data it raises, and the
    constructor ends in its [AttributeError], not in an assertion failure;
    for a company it completes, the company has been processed, and
    reported, before the assertion fails. *)
Lemma init_estimates_before_asserting :
  Benchmarks.S1 (_EI_benchmarks ex_provider_S1_S3) = Some (mkB true)
  /\ Benchmarks.S1S2 (_EI_benchmarks ex_provider_S1_S3) = None
  /\ __init__ point_add point_add point_add never_raises
              breakpoint_disabled float_zero_division (Some ex_estimate) ret
              ex_provider_S1_S3 [ex_steel_company]
     = ([], inl AttributeError)
  /\ __init__ point_add point_add point_add never_raises
              breakpoint_disabled float_zero_division (Some ex_estimate) ret
              ex_provider_S1_S3 [ex_company_no_s3]
     = ([LogInfoAddedS3 "C8" "Steel" "Global"], inl AssertionError).
Proof. repeat split; reflexivity. Qed.

Lemma nan_ghg_s3_is_cleared_without_transfer_witness :
  shift_ghg ex_company_nan_s3 = ([], inr (Some (q 7), None))
  /\ forall l c',
      shift_company point_add point_add point_add never_raises
                    breakpoint_disabled float_zero_division ex_company_nan_s3
      = (l, inr c') ->
      ghg_s1s2 c' = Some (q 7) /\ ghg_s3 c' = None.
Proof.
  apply (nan_ghg_s3_is_cleared_without_transfer point_add point_add point_add
           never_raises breakpoint_disabled float_zero_division ex_company_nan_s3).
  reflexivity.
Defined.

(** ** The fold of the historic series *)

Lemma rescale_nonzero zero_division s3_first last_pre x :
  nonzero (value last_pre) = true ->
  rescale zero_division s3_first last_pre x = inr (back_cast s3_first last_pre x).
Proof.
  unfold rescale, back_cast, mag_div, nonzero.
  destruct (value last_pre) as [d|]; intros H.
  - apply negb_true_iff in H. rewrite H.
    now destruct (mag_mul (value s3_first) (value x)).
  - now destruct (mag_mul (value s3_first) (value x)).
Qed.

Lemma map_exn_total f g l :
  (forall x, f x = inr (g x)) -> map_exn f l = inr (map g l).
Proof.
  intros H. induction l as [|x l IH]; cbn; [reflexivity|].
  now rewrite H, IH.
Qed.

Lemma filter_all_after (a : Z) (l : list Realization) :
  (forall p, p ∈ l -> a < year p) ->
  List.filter (fun p => bool_decide (year p <= a)) l = []
  /\ List.filter (fun p => bool_decide (year p < a)) l = [].
Proof.
  induction l as [|x l IH]; intros H; [split; reflexivity|].
  cbn. pose proof (H x ltac:(left)) as Hx.
  rewrite !bool_decide_eq_false_2 by lia.
  apply IH. intros p Hp. apply H. now right.
Qed.

(** In a series in ascending year order with a point at the anchor year,
    the points at or before the anchor are the points strictly before it
    followed by the anchor point. *)
Lemma pre_anchor_split (a : Z) (l : list Realization) (pa : Realization) :
  years_ascending l = true -> pa ∈ l -> year pa = a ->
  pre_anchor a l = List.filter (fun p => bool_decide (year p < a)) l ++ [pa].
Proof.
  unfold years_ascending, pre_anchor.
  induction l as [|x l IH]; intros Hasc Hin Hy; [inversion Hin|].
  cbn [map] in Hasc. apply strictly_ascending_cons in Hasc as [Hlt Hasc].
  assert (Hafter : forall p, p ∈ l -> year x < year p).
  { intros p Hp. apply Hlt. apply list_elem_of_fmap. eauto. }
  apply elem_of_cons in Hin as [->|Hin].
  - cbn. rewrite bool_decide_eq_true_2 by lia.
    rewrite bool_decide_eq_false_2 by lia.
    destruct (filter_all_after a l) as [-> ->]; [|reflexivity].
    intros p Hp. specialize (Hafter p Hp). lia.
  - pose proof (Hafter pa Hin). cbn.
    rewrite !bool_decide_eq_true_2 by lia.
    cbn. f_equal. now apply IH.
Qed.

Lemma adjust_historic_data_unfold breakpoint zero_division
      data attr data_adder s3_first s3_rest :
  Historic.S3 data = s3_first :: s3_rest ->
  Historic.getattr data attr <> [] ->
  let primary := Historic.getattr data attr in
  let pre := pre_anchor (year s3_first) primary in
  _adjust_historic_data breakpoint zero_division data attr data_adder
  = match pre with
    | [] => bind breakpoint (fun _ => ret data)
    | _ =>
        bind (if bool_decide (1 < Z.of_nat (length pre)) then
                bind (lift (map_exn (rescale zero_division s3_first
                                             (List.last pre s3_first))
                                    (removelast pre)))
                     (fun scaled => ret (scaled ++ Historic.S3 data))
              else ret (Historic.S3 data))
             (fun s3_data =>
                bind (lift (map2_exn data_adder primary s3_data))
                     (fun summed => ret (Historic.setattr data attr summed)))
    end.
Proof.
  intros HS3 Hne. cbv zeta. unfold _adjust_historic_data, pre_anchor.
  destruct (Historic.getattr data attr) as [|p0 l0]; [congruence|].
  rewrite HS3.
  destruct (List.filter _ (p0 :: l0)); reflexivity.
Qed.

(** C4 (as amended).  In the historic fold, with [pre] the points of the
    primary series at or before the S3 series' first year (the anchor):
    an empty primary series is replaced by the S3 series; when [pre] is
    not empty (and the value of its last point is not zero, when it has
    more than one point), each point of [pre] but the last is rescaled to
    S3_first_value x point_value / (value of the last point of [pre]),
    and these rescaled points followed by the S3 series are summed onto
    the primary series by position.  When the primary series is in
    ascending year order and has a point at the anchor year, the rescaled
    points are the points strictly before the anchor and the divisor is
    the value at the anchor. *)
Theorem adjust_historic_data_back_cast
  (breakpoint : M unit) (zero_division : Mag -> Exn + Mag)
  (data : Historic.t) (attr : EScope.t)
  (data_adder : Realization -> Realization -> Exn + Realization)
  (s3_first : Realization) (s3_rest : list Realization) :
  Historic.S3 data = s3_first :: s3_rest ->
  let primary := Historic.getattr data attr in
  let pre := pre_anchor (year s3_first) primary in
  let last_pre := List.last pre s3_first in
  (primary = [] ->
   _adjust_historic_data breakpoint zero_division data attr data_adder
   = ([], inr (Historic.setattr data attr (Historic.S3 data))))
  /\ (pre <> [] -> length pre = 1%nat \/ nonzero (value last_pre) = true ->
      _adjust_historic_data breakpoint zero_division data attr data_adder
      = ([], match map2_exn data_adder primary
                            (map (back_cast s3_first last_pre) (removelast pre)
                                 ++ Historic.S3 data) with
             | inl e => inl e
             | inr summed => inr (Historic.setattr data attr summed)
             end))
  /\ (forall pa, years_ascending primary = true -> pa ∈ primary ->
                 year pa = year s3_first ->
                 removelast pre
                 = List.filter (fun p => bool_decide (year p < year s3_first)) primary
                 /\ last_pre = pa).
Proof.
  intros HS3. cbv zeta.
  pose proof (adjust_historic_data_unfold breakpoint zero_division
                data attr data_adder s3_first s3_rest HS3)
    as Hunfold. cbv zeta in Hunfold.
  split; [|split].
  - intros Hp. unfold _adjust_historic_data. now rewrite Hp.
  - intros Hpre Hdiv.
    assert (Hne : Historic.getattr data attr <> []).
    { intros Hp. apply Hpre. now rewrite Hp. }
    rewrite Hunfold by exact Hne.
    destruct (pre_anchor (year s3_first) (Historic.getattr data attr))
      as [|p1 pre'] eqn:Hpre'; [congruence|].
    case_bool_decide as Hlen.
    + destruct Hdiv as [H1|Hnz]; [cbn in H1, Hlen; lia|].
      rewrite (map_exn_total _ (back_cast s3_first (List.last (p1 :: pre') s3_first)))
        by (intros x; now apply rescale_nonzero).
      cbn. destruct (map2_exn data_adder _ _); reflexivity.
    + assert (pre' = []) by (destruct pre'; [reflexivity|cbn in Hlen; lia]).
      subst pre'. cbn.
      destruct (map2_exn data_adder _ (Historic.S3 data)); reflexivity.
  - intros pa Hasc Hin Hy.
    rewrite (pre_anchor_split (year s3_first) _ pa Hasc Hin Hy).
    split; [apply removelast_last|apply last_last].
Qed.

Lemma adjust_historic_data_back_cast_witness :
  _adjust_historic_data breakpoint_quits float_zero_division
                        ex_hist_anchor EScope.S1 point_add
  = ([], inr (Historic.mk [pt 2019 5; pt 2020 10] [] [] [pt 2020 2] [])).
Proof.
  rewrite (proj1 (proj2 (adjust_historic_data_back_cast
                           breakpoint_quits float_zero_division
                           ex_hist_anchor EScope.S1 point_add
                           (pt 2020 2) [] eq_refl))).
  - reflexivity.
  - discriminate.
  - right. reflexivity.
Defined.

(** Counterexample to C4 as stated.  With a point at the anchor year 2020
    the divisor is the value at the anchor (8), not the value of the last
    point before it (4): the back-cast onto 2019 is 2 x 4 / 8 = 1, and it
    is added to the point of 2019, which lies before the anchor.  With no
    point at the anchor year, the point of 2019, strictly before the
    anchor, is not rescaled: the S3 point of 2020 is added to it. *)
Lemma adjust_historic_data_divisor_and_last_point :
  _adjust_historic_data breakpoint_quits float_zero_division
                        ex_hist_anchor EScope.S1 point_add
  = ([], inr (Historic.mk [pt 2019 5; pt 2020 10] [] [] [pt 2020 2] []))
  /\ _adjust_historic_data breakpoint_quits float_zero_division
                           ex_hist_before EScope.S1 point_add
     = ([], inr (Historic.mk [pt 2019 2] [] [] [pt 2020 2] [])).
Proof. repeat split; reflexivity. Qed.

(** ** The fold of a company *)



Section FoldProperties.
Variable emission_add : Realization -> Realization -> Exn + Realization.
Variable ei_add : Realization -> Realization -> Exn + Realization.
Variable projection_add : Realization -> Realization -> Exn + Realization.
Variable series_raises : Series -> Series -> bool.
Variable breakpoint : M unit.
Variable zero_division : Mag -> Exn + Mag.































End FoldProperties.



(** C3: the defect.  A company with an S1S2 and an S1S2S3 trajectory and
    no S3 trajectory comes out of the fold as it went in: its S1S2S3
    trajectory is still there, whatever the environment.  The same bundle
    held as targets loses its S1S2S3 slot: the target block, like the
    historic blocks, clears S1S2S3 whether or not there is an S3 slot,
    the trajectory block only inside its S3 branch. *)
Theorem fold_keeps_S1S2S3_trajectory
  (emission_add ei_add projection_add : Realization -> Realization -> Exn + Realization)
  (series_raises : Series -> Series -> bool)
  (breakpoint : M unit) (zero_division : Mag -> Exn + Mag) :
  shift_company emission_add ei_add projection_add series_raises
                breakpoint zero_division ex_company_S1S2S3_trajectory
  = ([], inr ex_company_S1S2S3_trajectory)
  /\ (projected_intensities ex_company_S1S2S3_trajectory ≫= Projected.S1S2S3)
     = Some (mkP "t CO2/GJ" (ser [(2020, 6); (2021, 5)]))
  /\ shift_targets projection_add series_raises breakpoint "C5"
                   (Some ex_bundle_S1S2_S1S2S3)
     = ([], inr (Some (Projected.mk None None
                                    (Some (mkP "t CO2/GJ" (ser [(2020, 5); (2021, 4)])))
                                    None None))).
Proof. repeat split; reflexivity. Qed.

(** C6: the defect.  Targets with S1 (3, 2) and S3 (1, 1) over 2020 and
    2021 and neither S2 nor S1S2: S3 is folded into S1, which becomes
    (4, 3); the repair then takes these S1 projections for S1S2 and folds
    S3 into them again: S1S2 is (5, 4), the S1 target plus S3 twice.
    And targets with S3 only: the repair reads the metric of the S1
    target, which is absent, and raises after its warning. *)
Theorem target_repair_counts_S3_twice
  (projection_add : Realization -> Realization -> Exn + Realization)
  (breakpoint : M unit) :
  shift_targets projection_add never_raises breakpoint "C5" (Some ex_targets_S1_S3)
  = ([LogWarnS2Missing "C5"],
     inr (Some (Projected.mk (Some (mkP "t CO2/GJ" (ser [(2020, 4); (2021, 3)])))
                             None
                             (Some (mkP "t CO2/GJ" (ser [(2020, 5); (2021, 4)])))
                             None None)))
  /\ forall series_raises,
      shift_targets projection_add series_raises breakpoint "C6" (Some ex_targets_S3_only)
      = ([LogWarnS2Missing "C6"], inl AttributeError).
Proof. repeat split; reflexivity. Qed.

(** * Further properties of the warehouse *)

(** ** Exceedance year: rows, errors and the sentinel *)






(** ** Cumulative emissions: totals and failures *)








(** ** The scope loop: what is assigned, and to whom *)







(** ** The fold: idempotence, the scalar total, and what is left alone *)

Section FoldFurther.
Variable emission_add : Realization -> Realization -> Exn + Realization.
Variable ei_add : Realization -> Realization -> Exn + Realization.
Variable projection_add : Realization -> Realization -> Exn + Realization.
Variable series_raises : Series -> Series -> bool.
Variable breakpoint : M unit.
Variable zero_division : Mag -> Exn + Mag.







End FoldFurther.



Section FoldFrame.
Variable emission_add : Realization -> Realization -> Exn + Realization.
Variable ei_add : Realization -> Realization -> Exn + Realization.
Variable projection_add : Realization -> Realization -> Exn + Realization.
Variable series_raises : Series -> Series -> bool.
Variable breakpoint : M unit.
Variable zero_division : Mag -> Exn + Mag.





End FoldFrame.


(** ** The list alignment of the target fold *)


(** ** The ragged left edge of the targets *)







(** ** The Excel providers *)



















(** ** The estimate of missing Scope 3 data *)










Section EstimateProperties.
Variable BASE_YEAR : Z.
Variable emission_add : Realization -> Realization -> Exn + Realization.
Variable ei_add : Realization -> Realization -> Exn + Realization.
Variable projection_add : Realization -> Realization -> Exn + Realization.
Variable series_raises : Series -> Series -> bool.
Variable base_year_info : string -> list (string * string).
Variable company_projected_production : string -> string -> string -> list Series.
Variable ei_benchmark : string -> string -> EScope.t -> Series.
Variable dimensionality_error : string -> string -> bool.



End EstimateProperties.

